(** * Marionette firmware: Fetch GPIO and DAC handlers and the message utilities

    A shallow embedding of [src/util/util_messages.c], [src/fetch/gpio.c] and
    [src/fetch/fetch_dac.c].  A C call becomes a computation in the monad [M]:
    the list of events it performs on the outside world (semaphore operations,
    text written to a stream, pad and DAC driver calls) together with its
    outcome, a returned value or a fault (a failed [chDbgAssert], a NULL
    pointer handed to a string function or used as a stream, a read past the
    end of an array). *)

From Stdlib Require Import ZArith List String Ascii Bool Arith Lia.
Import ListNotations.

Local Open Scope string_scope.
Local Open Scope list_scope.
Local Open Scope Z_scope.

(** ** C strings and the libc functions the sources call *)

(** A [char *] is [option string]: [None] is the NULL pointer.  The characters
    of a C string are those before its terminating NUL, so a string value
    holds no NUL character. *)
Definition NUL : ascii := Ascii.zero.

Fixpoint cstring (s : string) : Prop :=
  match s with
  | EmptyString => True
  | String c r => c <> NUL /\ cstring r
  end.

Definition strlen (s : string) : nat := String.length s.

(** [tolower] in the C locale. *)
Definition tolower (c : ascii) : ascii :=
  let n := nat_of_ascii c in
  if (65 <=? n)%nat && (n <=? 90)%nat then ascii_of_nat (n + 32) else c.

Definition uchar (c : ascii) : Z := Z.of_nat (nat_of_ascii c).

(** [strncasecmp s1 s2 n]: compares at most [n] characters, ignoring case;
    the end of a string reads as NUL. *)
Fixpoint strncasecmp (s1 s2 : string) (n : nat) : Z :=
  match n with
  | O => 0
  | S n' =>
      match s1, s2 with
      | EmptyString, EmptyString => 0
      | EmptyString, String c2 _ => 0 - uchar (tolower c2)
      | String c1 _, EmptyString => uchar (tolower c1)
      | String c1 r1, String c2 r2 =>
          if uchar (tolower c1) =? uchar (tolower c2)
          then strncasecmp r1 r2 n'
          else uchar (tolower c1) - uchar (tolower c2)
      end
  end.

(** [array[i]] of a token or argument array; slots beyond the supplied
    entries hold NULL. *)
Definition slot (array : list (option string)) (i : nat) : option string :=
  nth i array None.

(** [strtol(nptr, &endptr, 0)] after the C standard, on a machine whose
    [long] is 32 bits wide: white space, an optional sign, then the digits of
    an octal (leading 0), hexadecimal (leading 0x) or decimal number.  The
    result is the value, clamped to the range of [long], and the text
    [endptr] points to; without a digit the value is 0 and [endptr] is [nptr]. *)
Definition isspace (c : ascii) : bool :=
  let n := nat_of_ascii c in
  (n =? 32)%nat || ((9 <=? n)%nat && (n <=? 13)%nat).

Fixpoint skip_space (s : string) : string :=
  match s with
  | String c r => if isspace c then skip_space r else s
  | EmptyString => s
  end.

Definition digit_of (c : ascii) : option Z :=
  let n := nat_of_ascii c in
  if (48 <=? n)%nat && (n <=? 57)%nat then Some (Z.of_nat n - 48)
  else if (97 <=? n)%nat && (n <=? 122)%nat then Some (Z.of_nat n - 87)
  else if (65 <=? n)%nat && (n <=? 90)%nat then Some (Z.of_nat n - 55)
  else None.

Fixpoint digits (base : Z) (s : string) (acc : Z) (any : bool) : Z * bool * string :=
  match s with
  | String c r =>
      match digit_of c with
      | Some d => if d <? base then digits base r (acc * base + d) true else (acc, any, s)
      | None => (acc, any, s)
      end
  | EmptyString => (acc, any, s)
  end.

Definition LONG_MAX : Z := 2 ^ 31 - 1.

Definition LONG_MIN : Z := - 2 ^ 31.

Definition is_hex_digit (s : string) : bool :=
  match s with
  | String c _ => match digit_of c with Some d => d <? 16 | None => false end
  | EmptyString => false
  end.

Definition strtol_sign (s : string) : bool * string :=
  match s with
  | String "-"%char r => (true, r)
  | String "+"%char r => (false, r)
  | _ => (false, s)
  end.

Definition strtol_base (s : string) : Z * string :=
  match s with
  | String "0"%char (String x r) =>
      if (Ascii.eqb x "x"%char || Ascii.eqb x "X"%char) && is_hex_digit r
      then (16, r) else (8, s)
  | String "0"%char EmptyString => (8, s)
  | _ => (10, s)
  end.

Definition strtol (nptr : string) : Z * string :=
  let '(neg, s2) := strtol_sign (skip_space nptr) in
  let '(base, s3) := strtol_base s2 in
  let '(acc, any, rest) := digits base s3 0 false in
  if any
  then (Z.max LONG_MIN (Z.min LONG_MAX (if neg then - acc else acc)), rest)
  else (0, nptr).

(** Two's complement views of a C integer. *)
Definition wrapu (bits : Z) (v : Z) : Z := v mod 2 ^ bits.

Definition wraps (bits : Z) (v : Z) : Z :=
  let u := v mod 2 ^ bits in
  if u <? 2 ^ (bits - 1) then u else u - 2 ^ bits.

(** ** Events and the monad of calls *)

Definition stream : Type := nat.

Inductive GPIO_port : Type :=
  GPIOA | GPIOB | GPIOC | GPIOD | GPIOE | GPIOF | GPIOG | GPIOH | GPIOI.

Inductive GPIO_pinnum : Type :=
  | PIN0 | PIN1 | PIN2 | PIN3 | PIN4 | PIN5 | PIN6 | PIN7
  | PIN8 | PIN9 | PIN10 | PIN11 | PIN12 | PIN13 | PIN14 | PIN15
  | NO_GPIO_PIN.

Record DACConfig : Type := { dac_init : Z; dac_datamode : Z }.

Record SPIConfig : Type :=
  { end_cb : option nat; ssport : option GPIO_port; sspad : Z; cr1 : Z }.

Inductive event : Type :=
  | SemWait                                   (* chBSemWait(&mshell_io_sem) *)
  | SemSignal                                 (* chBSemSignal(&mshell_io_sem) *)
  | Put (chp : stream) (text : string)        (* characters written to a stream *)
  | PalReadPad (port : GPIO_port) (pin : GPIO_pinnum)
  | PalSetPad (port : GPIO_port) (pin : GPIO_pinnum)
  | PalClearPad (port : GPIO_port) (pin : GPIO_pinnum)
  | PalSetPadMode (port : GPIO_port) (pin : GPIO_pinnum) (mode : Z)
  | DacStart (cfg : DACConfig)                (* dacStart(&DACD1, cfg) *)
  | DacPutChannelX (channel : Z) (sample : Z) (* dacPutChannelX(&DACD1, ..) *)
  | SpiStart (cfg : SPIConfig)                (* spiStart(&SPID4, cfg) *)
  | SpiSelect                                 (* spiSelect(&SPID4) *)
  | SpiSend (tx_data : list Z)                (* spiSend(&SPID4, n, tx_data) *)
  | SpiUnselect.                              (* spiUnselect(&SPID4) *)

Inductive outcome (A : Type) : Type :=
  | Returned (a : A)
  | Fault.

Arguments Returned {A} a.
Arguments Fault {A}.

Definition M (A : Type) : Type := (list event * outcome A)%type.

Definition ret {A : Type} (a : A) : M A := ([], Returned a).

Definition fault {A : Type} : M A := ([], Fault).

Definition emit (e : event) : M unit := ([e], Returned tt).

Definition bind {A B : Type} (m : M A) (k : A -> M B) : M B :=
  match m with
  | (t, Returned a) => let (t', r) := k a in (t ++ t', r)
  | (t, Fault) => (t, Fault)
  end.

Declare Scope call_scope.
Delimit Scope call_scope with call.
Notation "x <- m ;; k" := (bind m (fun x => k))
  (at level 61, m at next level, right associativity) : call_scope.
Notation "m ;; k" := (bind m (fun _ => k))
  (at level 61, right associativity) : call_scope.
Local Open Scope call_scope.

Definition trace {A : Type} (m : M A) : list event := fst m.

Definition result {A : Type} (m : M A) : outcome A := snd m.

(** The text a trace wrote to stream [s], all writes in order. *)
Fixpoint emitted (s : stream) (t : list event) : string :=
  match t with
  | [] => ""
  | Put s' text :: t' =>
      if Nat.eqb s s' then (text ++ emitted s t')%string else emitted s t'
  | _ :: t' => emitted s t'
  end.

Definition chBSemWait : M unit := emit SemWait.

Definition chBSemSignal : M unit := emit SemSignal.

(** ** The formatted printer of the ChibiOS library

    [chprintf] and [chvprintf] belong to ChibiOS, not to this repository.
    [render] follows their conversion loop for what the calls of this
    repository use: literal text, an optional [-], an optional [0] or [.]
    filler, a decimal width, a precision, an [l] modifier, and the conversions
    [c s d i u x o f] in either case.  The target is a 32-bit machine, so
    [int] and [long] are both 32 bits wide. *)

(** A [double] argument is kept as the text the library's [ftoa] prints for
    it; floating-point arithmetic is not modelled. *)
Record double : Type := { ftoa : string }.

Inductive arg : Type :=
  | AInt (v : Z)
  | AStr (s : option string)
  | ADouble (d : double).

Definition digit_char (d : Z) : ascii :=
  if d <? 10 then ascii_of_nat (48 + Z.to_nat d) else ascii_of_nat (55 + Z.to_nat d).

(** The digit loop of [ltoa]: [do { *--q = digit(l % radix); l /= radix; }
    while (l != 0)].  A 32-bit value has at most 32 digits. *)
Fixpoint ltoa_loop (fuel : nat) (l radix : Z) (acc : string) : string :=
  match fuel with
  | O => acc
  | S fuel' =>
      let acc' := String (digit_char (l mod radix)) acc in
      if l / radix =? 0 then acc' else ltoa_loop fuel' (l / radix) radix acc'
  end.

Definition ltoa (l radix : Z) : string := ltoa_loop 32 l radix "".

Fixpoint fill (n : nat) (c : ascii) : string :=
  match n with
  | O => ""
  | S n' => String c (fill n' c)
  end.

Fixpoint take (n : nat) (s : string) : string :=
  match n, s with
  | S n', String c r => String c (take n' r)
  | _, _ => ""
  end.

Definition pad (left_align : bool) (filler : ascii) (width : nat) (body : string) : string :=
  let w := (width - String.length body)%nat in
  if left_align then (body ++ fill w filler)%string
  else
    match body with
    | String "-"%char r =>
        if Ascii.eqb filler "0"%char
        then String "-"%char (fill w filler ++ r)%string
        else (fill w filler ++ body)%string
    | _ => (fill w filler ++ body)%string
    end.

(** [va_arg]: the next argument read at the type the conversion expects.
    A missing or ill-typed argument is undefined in C; the model reads a zero,
    a NULL string or an empty float text there. *)
Definition next_int (args : list arg) : Z * list arg :=
  match args with
  | AInt v :: r => (v, r)
  | _ :: r => (0, r)
  | [] => (0, [])
  end.

Definition next_str (args : list arg) : option string * list arg :=
  match args with
  | AStr s :: r => (s, r)
  | _ :: r => (None, r)
  | [] => (None, [])
  end.

Definition next_double (args : list arg) : string * list arg :=
  match args with
  | ADouble d :: r => (ftoa d, r)
  | _ :: r => ("", r)
  | [] => ("", [])
  end.

Definition signed_text (v : Z) : string :=
  let l := wraps 32 v in
  if l <? 0 then String "-"%char (ltoa (wrapu 32 (- l)) 10) else ltoa l 10.

Definition unsigned_text (v : Z) (radix : Z) : string := ltoa (wrapu 32 v) radix.

Definition conv (left_align : bool) (filler : ascii) (width prec : nat) (c : ascii)
    (args : list arg) : string * list arg :=
  match c with
  | "c"%char =>
      let (v, r) := next_int args in
      (pad left_align " "%char width (String (ascii_of_nat (Z.to_nat (wrapu 8 v))) ""), r)
  | "s"%char =>
      let (s, r) := next_str args in
      let text := match s with Some x => x | None => "(null)" end in
      (pad left_align " "%char width (take (if Nat.eqb prec 0 then Z.to_nat 32767 else prec) text), r)
  | "d"%char | "D"%char | "i"%char | "I"%char =>
      let (v, r) := next_int args in (pad left_align filler width (signed_text v), r)
  | "u"%char | "U"%char =>
      let (v, r) := next_int args in (pad left_align filler width (unsigned_text v 10), r)
  | "x"%char | "X"%char =>
      let (v, r) := next_int args in (pad left_align filler width (unsigned_text v 16), r)
  | "o"%char | "O"%char =>
      let (v, r) := next_int args in (pad left_align filler width (unsigned_text v 8), r)
  | "f"%char =>
      let (t, r) := next_double args in (pad left_align filler width t, r)
  | _ => (pad left_align filler width (String c ""), args)
  end.

(** Where the scan of a format stands: in literal text, or at one of the
    stages of a conversion specification. *)
Inductive fmode : Type :=
  | InText
  | AtMinus
  | AtFill (left_align : bool)
  | InWidth (left_align : bool) (filler : ascii) (width : nat)
  | InPrec (left_align : bool) (filler : ascii) (width prec : nat)
  | AtConv (left_align : bool) (filler : ascii) (width prec : nat).

Definition is_digit (c : ascii) : bool :=
  let n := nat_of_ascii c in (48 <=? n)%nat && (n <=? 57)%nat.

Definition digit_val (c : ascii) : nat := (nat_of_ascii c - 48)%nat.

Definition step_long (left_align : bool) (filler : ascii) (width prec : nat) (c : ascii)
    (args : list arg) : string * fmode * list arg :=
  if Ascii.eqb c "l"%char || Ascii.eqb c "L"%char
  then ("", AtConv left_align filler width prec, args)
  else let (text, r) := conv left_align filler width prec c args in (text, InText, r).

Definition step_width (left_align : bool) (filler : ascii) (width : nat) (c : ascii)
    (args : list arg) : string * fmode * list arg :=
  if is_digit c then ("", InWidth left_align filler (width * 10 + digit_val c), args)
  else if Ascii.eqb c "."%char then ("", InPrec left_align filler width 0, args)
  else step_long left_align filler width 0 c args.

Definition step_fill (left_align : bool) (c : ascii) (args : list arg)
    : string * fmode * list arg :=
  if Ascii.eqb c "."%char || Ascii.eqb c "0"%char
  then ("", InWidth left_align "0"%char 0, args)
  else step_width left_align " "%char 0 c args.

Definition step (m : fmode) (c : ascii) (args : list arg)
    : string * fmode * list arg :=
  match m with
  | InText =>
      if Ascii.eqb c "%"%char then ("", AtMinus, args) else (String c "", InText, args)
  | AtMinus =>
      if Ascii.eqb c "-"%char then ("", AtFill true, args) else step_fill false c args
  | AtFill left_align => step_fill left_align c args
  | InWidth left_align filler width => step_width left_align filler width c args
  | InPrec left_align filler width prec =>
      if is_digit c then ("", InPrec left_align filler width (prec * 10 + digit_val c), args)
      else step_long left_align filler width prec c args
  | AtConv left_align filler width prec =>
      let (text, r) := conv left_align filler width prec c args in (text, InText, r)
  end.

Fixpoint render_from (m : fmode) (fmt : string) (args : list arg) : string :=
  match fmt with
  | EmptyString => ""
  | String c rest =>
      match step m c args with
      | (text, m', args') => (text ++ render_from m' rest args')%string
      end
  end.

Definition render (fmt : string) (args : list arg) : string :=
  render_from InText fmt args.

(** [chvprintf(chp, fmt, ap)] writes the rendered text to the stream,
    character by character; a NULL stream is dereferenced. *)
Definition chvprintf (chp : option stream) (fmt : string) (args : list arg) : M unit :=
  match chp with
  | None => fault
  | Some s => emit (Put s (render fmt args))
  end.

Definition chprintf (chp : option stream) (fmt : string) (args : list arg) : M unit :=
  chvprintf chp fmt args.

Definition CRLF : string := String (ascii_of_nat 13) (String (ascii_of_nat 10) "").

(** ** util_messages.c *)

Module UtilMessages.

Definition is_null {A : Type} (p : option A) : bool :=
  match p with
  | None => true
  | Some _ => false
  end.

(** [str[i]] for [i] up to [strlen(str)], where the terminator is read. *)
Definition char_at (str : string) (i : nat) : ascii :=
  match String.get i str with
  | Some c => c
  | None => NUL
  end.

Definition LF : ascii := ascii_of_nat 10.

Definition CR : ascii := ascii_of_nat 13.

Definition needs_newline (str : option string) : bool :=
  match str with
  | None => true
  | Some EmptyString => true
  | Some s =>
      let end_ := (strlen s - 1)%nat in
      negb (Ascii.eqb (char_at s end_) LF || Ascii.eqb (char_at s end_) CR)
  end.

(** [chvprintf(chp, fmt, arg_list)] with the caller's format pointer. *)
Definition chvprintf_ptr (chp : option stream) (fmt : option string) (args : list arg)
    : M unit :=
  match fmt with
  | None => fault
  | Some f => chvprintf chp f args
  end.

Definition newline_if_needed (chp : option stream) (fmt : option string) : M unit :=
  if needs_newline fmt then chprintf chp CRLF [] else ret tt.

Definition util_message_begin (chp : option stream) : M unit :=
  chBSemWait ;;
  chprintf chp ("BEGIN:" ++ CRLF) [] ;;
  chBSemSignal.

Definition util_message_end (chp : option stream) (success : bool) : M unit :=
  chBSemWait ;;
  (if success
   then chprintf chp ("END:OK" ++ CRLF) []
   else chprintf chp ("END:ERROR" ++ CRLF) []) ;;
  chBSemSignal.

Definition util_message_debug (chp : option stream) (file : option string) (line : Z)
    (func : option string) (fmt : option string) (args : list arg) : M unit :=
  if is_null fmt || is_null file || is_null func || is_null chp then ret tt
  else
    chBSemWait ;;
    chprintf chp "?:%s:%d:%s:" [AStr file; AInt line; AStr func] ;;
    chvprintf_ptr chp fmt args ;;
    newline_if_needed chp fmt ;;
    chBSemSignal.

Definition util_message_info (chp : option stream) (fmt : option string)
    (args : list arg) : M unit :=
  if is_null chp || is_null fmt then ret tt
  else
    chBSemWait ;;
    chprintf chp "#:" [] ;;
    chvprintf_ptr chp fmt args ;;
    newline_if_needed chp fmt ;;
    chBSemSignal.

Definition util_message_warning (chp : option stream) (fmt : option string)
    (args : list arg) : M unit :=
  if is_null chp || is_null fmt then ret tt
  else
    chBSemWait ;;
    chprintf chp "W:" [] ;;
    chvprintf_ptr chp fmt args ;;
    newline_if_needed chp fmt ;;
    chBSemSignal.

Definition util_message_error (chp : option stream) (fmt : option string)
    (args : list arg) : M unit :=
  if is_null chp || is_null fmt then ret tt
  else
    chBSemWait ;;
    chprintf chp "E:" [] ;;
    chvprintf_ptr chp fmt args ;;
    newline_if_needed chp fmt ;;
    chBSemSignal.

Definition util_message_bool (chp : option stream) (name : option string) (data : bool)
    : M unit :=
  if is_null chp then ret tt
  else
    chBSemWait ;;
    (if data
     then chprintf chp ("B:%s:true" ++ CRLF) [AStr name]
     else chprintf chp ("B:%s:false" ++ CRLF) [AStr name]) ;;
    chBSemSignal.

Definition util_message_string (chp : option stream) (name : option string)
    (fmt : option string) (args : list arg) : M unit :=
  if is_null chp || is_null fmt then ret tt
  else
    chBSemWait ;;
    chprintf chp "S:%s:" [AStr name] ;;
    chvprintf_ptr chp fmt args ;;
    newline_if_needed chp fmt ;;
    chBSemSignal.

(** [for (i = 0; i < count; i++)]: [todo] iterations remain, [i] is the index;
    an element beyond the array is a fault. *)
Fixpoint index_loop {A : Type} (chp : option stream) (fmt : string) (mk : A -> arg)
    (array : list A) (count : nat) (i : nat) (todo : nat) : M unit :=
  match todo with
  | O => ret tt
  | S todo' =>
      match nth_error array i with
      | None => fault
      | Some x =>
          chprintf chp fmt [mk x] ;;
          (if (i + 1 <? count)%nat then chprintf chp "," [] else ret tt) ;;
          index_loop chp fmt mk array count (i + 1) todo'
      end
  end.

Definition util_message_string_array (chp : option stream) (name : option string)
    (str_array : list (option string)) (count : nat) : M unit :=
  if is_null chp then ret tt
  else
    chBSemWait ;;
    chprintf chp "SA:%s:" [AStr name] ;;
    index_loop chp "%s" AStr str_array count 0 count ;;
    chprintf chp CRLF [] ;;
    chBSemSignal.

Definition util_message_double (chp : option stream) (name : option string)
    (data : list double) (count : nat) : M unit :=
  if is_null chp then ret tt
  else
    chBSemWait ;;
    chprintf chp "F:%s:" [AStr name] ;;
    index_loop chp "%f" ADouble data count 0 count ;;
    chprintf chp CRLF [] ;;
    chBSemSignal.

(** [for ( ; count > 0; count--)] printing [*(data++)] with [fmt], a comma
    after every element but the last.  [elem] is the value of an element at
    the array's element type, as the default argument promotions pass it. *)
Fixpoint count_loop (chp : option stream) (fmt : string) (elem : Z -> Z)
    (data : list Z) (count : nat) {struct count} : M unit :=
  match count with
  | O => ret tt
  | S count' =>
      match data with
      | [] => fault
      | x :: data' =>
          chprintf chp fmt [AInt (elem x)] ;;
          (if (1 <? count)%nat then chprintf chp "," [] else ret tt) ;;
          count_loop chp fmt elem data' count'
      end
  end.

Definition int_array (tag : string) (fmt : string) (elem : Z -> Z)
    (chp : option stream) (name : option string) (data : list Z) (count : nat)
    : M unit :=
  if is_null chp then ret tt
  else
    chBSemWait ;;
    chprintf chp tag [AStr name] ;;
    count_loop chp fmt elem data count ;;
    chprintf chp CRLF [] ;;
    chBSemSignal.

Definition util_message_int8 := int_array "S8:%s:" "%d" (wraps 8).

Definition util_message_uint8 := int_array "U8:%s:" "%u" (wrapu 8).

Definition util_message_int16 := int_array "S16:%s:" "%d" (wraps 16).

Definition util_message_uint16 := int_array "U16:%s:" "%u" (wrapu 16).

Definition util_message_int32 := int_array "S32:%s:" "%d" (wraps 32).

Definition util_message_uint32 := int_array "U32:%s:" "%d" (wrapu 32).

Definition util_message_hex_uint8 := int_array "H8:%s:" "%02X" (wrapu 8).

Definition util_message_hex_uint16 := int_array "H16:%s:" "%04X" (wrapu 16).

Definition util_message_hex_uint32 := int_array "H32:%s:" "%08X" (wrapu 32).

(** A call of any emission function of the module, with its arguments. *)
Inductive call : Type :=
  | MsgBegin (chp : option stream)
  | MsgEnd (chp : option stream) (success : bool)
  | MsgDebug (chp : option stream) (file : option string) (line : Z)
      (func : option string) (fmt : option string) (args : list arg)
  | MsgInfo (chp : option stream) (fmt : option string) (args : list arg)
  | MsgWarning (chp : option stream) (fmt : option string) (args : list arg)
  | MsgError (chp : option stream) (fmt : option string) (args : list arg)
  | MsgBool (chp : option stream) (name : option string) (data : bool)
  | MsgString (chp : option stream) (name : option string) (fmt : option string)
      (args : list arg)
  | MsgStringArray (chp : option stream) (name : option string)
      (str_array : list (option string)) (count : nat)
  | MsgDouble (chp : option stream) (name : option string) (data : list double)
      (count : nat)
  | MsgInt8 (chp : option stream) (name : option string) (data : list Z) (count : nat)
  | MsgUInt8 (chp : option stream) (name : option string) (data : list Z) (count : nat)
  | MsgInt16 (chp : option stream) (name : option string) (data : list Z) (count : nat)
  | MsgUInt16 (chp : option stream) (name : option string) (data : list Z) (count : nat)
  | MsgInt32 (chp : option stream) (name : option string) (data : list Z) (count : nat)
  | MsgUInt32 (chp : option stream) (name : option string) (data : list Z) (count : nat)
  | MsgHex8 (chp : option stream) (name : option string) (data : list Z) (count : nat)
  | MsgHex16 (chp : option stream) (name : option string) (data : list Z) (count : nat)
  | MsgHex32 (chp : option stream) (name : option string) (data : list Z) (count : nat).

Definition run (c : call) : M unit :=
  match c with
  | MsgBegin chp => util_message_begin chp
  | MsgEnd chp success => util_message_end chp success
  | MsgDebug chp file line func fmt args => util_message_debug chp file line func fmt args
  | MsgInfo chp fmt args => util_message_info chp fmt args
  | MsgWarning chp fmt args => util_message_warning chp fmt args
  | MsgError chp fmt args => util_message_error chp fmt args
  | MsgBool chp name data => util_message_bool chp name data
  | MsgString chp name fmt args => util_message_string chp name fmt args
  | MsgStringArray chp name a count => util_message_string_array chp name a count
  | MsgDouble chp name data count => util_message_double chp name data count
  | MsgInt8 chp name data count => util_message_int8 chp name data count
  | MsgUInt8 chp name data count => util_message_uint8 chp name data count
  | MsgInt16 chp name data count => util_message_int16 chp name data count
  | MsgUInt16 chp name data count => util_message_uint16 chp name data count
  | MsgInt32 chp name data count => util_message_int32 chp name data count
  | MsgUInt32 chp name data count => util_message_uint32 chp name data count
  | MsgHex8 chp name data count => util_message_hex_uint8 chp name data count
  | MsgHex16 chp name data count => util_message_hex_uint16 chp name data count
  | MsgHex32 chp name data count => util_message_hex_uint32 chp name data count
  end.

Definition stream_of (c : call) : option stream :=
  match c with
  | MsgBegin chp | MsgEnd chp _ | MsgDebug chp _ _ _ _ _ | MsgInfo chp _ _ | MsgWarning chp _ _
  | MsgError chp _ _ | MsgBool chp _ _ | MsgString chp _ _ _ | MsgStringArray chp _ _ _
  | MsgDouble chp _ _ _ | MsgInt8 chp _ _ _ | MsgUInt8 chp _ _ _ | MsgInt16 chp _ _ _
  | MsgUInt16 chp _ _ _ | MsgInt32 chp _ _ _ | MsgUInt32 chp _ _ _ | MsgHex8 chp _ _ _
  | MsgHex16 chp _ _ _ | MsgHex32 chp _ _ _ => chp
  end.

End UtilMessages.

(** ** gpio.c *)

Module Gpio.

Import UtilMessages.

(** The terminal sets of the GPIO grammar ([Fetch_terminals], fetch_defs.h). *)
Record Fetch_terminals : Type :=
  { gpio_subcommandA : list string;
    gpio_direction : list string;
    gpio_sense : list string;
    port_subcommand : list string;
    pin_subcommand : list string }.

(** What gpio.c takes from headers and files that are not part of the sources
    at hand: the token positions of a command list, the string length cap, the
    ChibiOS pad mode bits, the numeric values of ports and pins, the input
    levels [palReadPad] reads, the expansion of [__FILE__], and the function
    [token_match] of util_strings.c, called with a stream, a terminal set, a
    token and the number of terminals. *)
Class FetchDefs : Type :=
  { ACTION : nat;
    PORT : nat;
    PIN : nat;
    DIRECTION : nat;
    SENSE : nat;
    MAX_PIN_STR_LEN : nat;
    PAL_STM32_MODE_INPUT : Z;
    PAL_STM32_MODE_OUTPUT : Z;
    PAL_STM32_MODE_ANALOG : Z;
    PAL_STM32_PUDR_FLOATING : Z;
    PAL_STM32_PUDR_PULLUP : Z;
    PAL_STM32_PUDR_PULLDOWN : Z;
    GPIOA_BASE : Z;
    port_address : GPIO_port -> Z;
    pin_value : GPIO_pinnum -> Z;
    pad_level : GPIO_port -> GPIO_pinnum -> Z;
    file_name : string;
    token_match : option stream -> list string -> option string -> Z -> M Z }.

Definition gpio_pinmap : list (string * GPIO_pinnum) :=
  [ ("pin0", PIN0); ("pin1", PIN1); ("pin2", PIN2); ("pin3", PIN3);
    ("pin4", PIN4); ("pin5", PIN5); ("pin6", PIN6); ("pin7", PIN7);
    ("pin8", PIN8); ("pin9", PIN9); ("pin10", PIN10); ("pin11", PIN11);
    ("pin12", PIN12); ("pin13", PIN13); ("pin14", PIN14); ("pin15", PIN15) ].

Definition gpio_portmap : list (string * GPIO_port) :=
  [ ("porta", GPIOA); ("portb", GPIOB); ("portc", GPIOC); ("portd", GPIOD);
    ("porte", GPIOE); ("portf", GPIOF); ("portg", GPIOG); ("porth", GPIOH);
    ("porti", GPIOI) ].

(** Modelled from the spec: [get_longest_str_length] of util_strings.c, which
    is not among the sources; the match length is the greater of the
    candidate's and the input's length, capped at a fixed maximum. *)
Definition get_longest_str_length (s1 s2 : string) (max_length : nat) : nat :=
  Nat.min (Nat.max (strlen s1) (strlen s2)) max_length.

(** [strncasecmp(p, lit, n)] on a token pointer. *)
Definition strncasecmp_ptr (p : option string) (lit : string) (n : nat) : M Z :=
  match p with
  | None => fault
  | Some s => ret (strncasecmp s lit n)
  end.

Definition NELEMS {A : Type} (array : list A) : Z := Z.of_nat (List.length array).

Section Handlers.

Context {defs : FetchDefs}.

(** Modelled from the spec: the macros [DBG_MSG] and [DBG_VMSG] of
    util_messages.h, which is not among the sources, as the debug emission
    [?:file:line:func:] of the call site. *)
Definition DBG_VMSG (chp : option stream) (line : Z) (func : string) (fmt : string)
    (args : list arg) : M unit :=
  util_message_debug chp (Some file_name) line (Some func) (Some fmt) args.

Definition DBG_MSG (chp : option stream) (line : Z) (func : string) (str : string)
    : M unit :=
  DBG_VMSG chp line func str [].

Definition gpio_is_valid_gpio_direction (chp : option stream)
    (fetch_terms : Fetch_terminals) (chkgpio_direction : option string) : M Z :=
  token_match chp (gpio_direction fetch_terms) chkgpio_direction
    (NELEMS (gpio_direction fetch_terms)).

Definition gpio_is_valid_gpio_sense (chp : option stream)
    (fetch_terms : Fetch_terminals) (chkgpio_sense : option string) : M Z :=
  token_match chp (gpio_sense fetch_terms) chkgpio_sense
    (NELEMS (gpio_sense fetch_terms)).

Definition gpio_is_valid_gpio_subcommandA (chp : option stream)
    (fetch_terms : Fetch_terminals) (chkgpio_subcommandA : option string) : M Z :=
  token_match chp (gpio_subcommandA fetch_terms) chkgpio_subcommandA
    (NELEMS (gpio_subcommandA fetch_terms)).

Definition gpio_is_valid_port_subcommand (chp : option stream)
    (fetch_terms : Fetch_terminals) (chkport_subcommand : option string) : M Z :=
  token_match chp (port_subcommand fetch_terms) chkport_subcommand
    (NELEMS (port_subcommand fetch_terms)).

Definition gpio_is_valid_pin_subcommand (chp : option stream)
    (fetch_terms : Fetch_terminals) (chkpin_subcommand : option string) : M Z :=
  token_match chp (pin_subcommand fetch_terms) chkpin_subcommand
    (NELEMS (pin_subcommand fetch_terms)).

(** The scan of a string table shared by [string_to_pinnum] and
    [string_to_gpioport]: the assertion on the pointers, then the first entry
    equal to the input over [maxlen] characters, else [none]. *)
Fixpoint scan_map {A : Type} (map : list (string * A)) (none : A) (str : option string)
    : M A :=
  match map with
  | [] => ret none
  | (entry, value) :: rest =>
      match str with
      | None => fault
      | Some s =>
          let maxlen := get_longest_str_length entry s MAX_PIN_STR_LEN in
          if strncasecmp entry s maxlen =? 0 then ret value
          else scan_map rest none str
      end
  end.

Definition string_to_pinnum (chp : option stream) (pinstr : option string)
    : M GPIO_pinnum :=
  scan_map gpio_pinmap NO_GPIO_PIN pinstr.

Definition string_to_gpioport (chp : option stream) (portstr : option string)
    : M (option GPIO_port) :=
  scan_map (List.map (fun e => (fst e, Some (snd e))) gpio_portmap) None portstr.

Definition is_no_pin (pin : GPIO_pinnum) : bool :=
  match pin with
  | NO_GPIO_PIN => true
  | _ => false
  end.

(** The result carries the values left in [*port] and [*pin]. *)
Definition gpio_get_port_pin (chp : option stream) (cmd_list : list (option string))
    (fetch_terms : Fetch_terminals) (port : option GPIO_port) (pin : GPIO_pinnum)
    : M (bool * option GPIO_port * GPIO_pinnum) :=
  v <- gpio_is_valid_port_subcommand chp fetch_terms (slot cmd_list PORT) ;;
  if 0 <=? v then
    gpio_port <- string_to_gpioport chp (slot cmd_list PORT) ;;
    if negb (is_null gpio_port) then
      let port := gpio_port in
      w <- gpio_is_valid_pin_subcommand chp fetch_terms (slot cmd_list PIN) ;;
      if 0 <=? w then
        gpio_pinnum <- string_to_pinnum chp (slot cmd_list PIN) ;;
        if negb (is_no_pin gpio_pinnum) then ret (true, port, gpio_pinnum)
        else ret (false, port, NO_GPIO_PIN)
      else ret (false, port, pin)
    else ret (false, None, pin)
  else ret (false, port, pin).

(** The guarded pad operation the four handlers end with. *)
Definition on_pad (found : bool * option GPIO_port * GPIO_pinnum)
    (op : GPIO_port -> GPIO_pinnum -> M unit) : M bool :=
  let '(ok, port, pin) := found in
  if ok then
    match port with
    | Some p => if negb (is_no_pin pin) then op p pin ;; ret true else ret false
    | None => ret false
    end
  else ret false.

Definition gpio_get (chp : option stream) (fetch_terms : Fetch_terminals)
    (cmd_list : list (option string)) : M bool :=
  found <- gpio_get_port_pin chp cmd_list fetch_terms (Some GPIOA) PIN0 ;;
  on_pad found (fun port pin =>
    emit (PalReadPad port pin) ;;
    chprintf chp ("%d" ++ CRLF) [AInt (pad_level port pin)]).

Definition gpio_set (chp : option stream) (fetch_terms : Fetch_terminals)
    (cmd_list : list (option string)) : M bool :=
  found <- gpio_get_port_pin chp cmd_list fetch_terms None PIN0 ;;
  on_pad found (fun port pin => emit (PalSetPad port pin)).

Definition gpio_clear (chp : option stream) (fetch_terms : Fetch_terminals)
    (cmd_list : list (option string)) : M bool :=
  found <- gpio_get_port_pin chp cmd_list fetch_terms None PIN0 ;;
  on_pad found (fun port pin => emit (PalClearPad port pin)).

Definition TAB : string := String (ascii_of_nat 9) "".

(** The last stage of [gpio_config], with the direction and sense found. *)
Definition gpio_config_pad (chp : option stream) (fetch_terms : Fetch_terminals)
    (cmd_list : list (option string)) (direction sense : Z) : M bool :=
  found <- gpio_get_port_pin chp cmd_list fetch_terms None PIN0 ;;
  on_pad found (fun port pin =>
    DBG_VMSG chp 297 "gpio_config" "pin: %d" [AInt (pin_value pin)] ;;
    DBG_VMSG chp 298 "gpio_config" ("port: 0x%x" ++ TAB ++ "0x%x")
      [AInt (port_address port); AInt GPIOA_BASE] ;;
    DBG_VMSG chp 299 "gpio_config" "dir: %d" [AInt direction] ;;
    DBG_VMSG chp 300 "gpio_config" "sense: %d" [AInt sense] ;;
    emit (PalSetPadMode port pin (Z.lor direction sense))).

(** The sense stage of [gpio_config], with the direction found. *)
Definition gpio_config_sense (chp : option stream) (fetch_terms : Fetch_terminals)
    (cmd_list : list (option string)) (direction : Z) : M bool :=
  v <- gpio_is_valid_gpio_sense chp fetch_terms (slot cmd_list SENSE) ;;
  if 0 <=? v then
    c1 <- strncasecmp_ptr (slot cmd_list SENSE) "pullup" (strlen "pullup") ;;
    if c1 =? 0 then gpio_config_pad chp fetch_terms cmd_list direction PAL_STM32_PUDR_PULLUP
    else
      c2 <- strncasecmp_ptr (slot cmd_list SENSE) "pulldown" (strlen "pulldown") ;;
      if c2 =? 0
      then gpio_config_pad chp fetch_terms cmd_list direction PAL_STM32_PUDR_PULLDOWN
      else
        c3 <- strncasecmp_ptr (slot cmd_list SENSE) "floating" (strlen "floating") ;;
        if c3 =? 0
        then gpio_config_pad chp fetch_terms cmd_list direction PAL_STM32_PUDR_FLOATING
        else
          c4 <- strncasecmp_ptr (slot cmd_list SENSE) "analog" (strlen "analog") ;;
          if c4 =? 0
          then gpio_config_pad chp fetch_terms cmd_list direction PAL_STM32_MODE_ANALOG
          else ret false
  else ret false.

Definition gpio_config (chp : option stream) (fetch_terms : Fetch_terminals)
    (cmd_list : list (option string)) : M bool :=
  v <- gpio_is_valid_gpio_direction chp fetch_terms (slot cmd_list DIRECTION) ;;
  if 0 <=? v then
    c1 <- strncasecmp_ptr (slot cmd_list DIRECTION) "input" (strlen "input") ;;
    if c1 =? 0 then gpio_config_sense chp fetch_terms cmd_list PAL_STM32_MODE_INPUT
    else
      c2 <- strncasecmp_ptr (slot cmd_list DIRECTION) "output" (strlen "output") ;;
      if c2 =? 0 then gpio_config_sense chp fetch_terms cmd_list PAL_STM32_MODE_OUTPUT
      else
        DBG_MSG chp 256 "gpio_config" "The port direction is not available" ;;
        ret false
  else ret false.

Definition gpio_dispatch (chp : option stream) (cmd_list data_list : list (option string))
    (fetch_terms : Fetch_terminals) : M bool :=
  v <- gpio_is_valid_gpio_subcommandA chp fetch_terms (slot cmd_list ACTION) ;;
  if 0 <=? v then
    c1 <- strncasecmp_ptr (slot cmd_list ACTION) "get" (strlen "get") ;;
    if c1 =? 0 then gpio_get chp fetch_terms cmd_list
    else
      c2 <- strncasecmp_ptr (slot cmd_list ACTION) "set" (strlen "set") ;;
      if c2 =? 0 then gpio_set chp fetch_terms cmd_list
      else
        c3 <- strncasecmp_ptr (slot cmd_list ACTION) "clear" (strlen "clear") ;;
        if c3 =? 0 then gpio_clear chp fetch_terms cmd_list
        else
          c4 <- strncasecmp_ptr (slot cmd_list ACTION) "config" (strlen "config") ;;
          if c4 =? 0 then
            if negb (is_null (slot cmd_list DIRECTION))
               && negb (is_null (slot cmd_list SENSE))
            then gpio_config chp fetch_terms cmd_list
            else ret false
          else
            DBG_MSG chp 338 "gpio_dispatch" "sub-command not ready yet..." ;;
            ret false
  else ret false.

End Handlers.

(** Modelled from the spec: [token_match] of util_strings.c, which is not
    among the sources.  The token is compared with each terminal, ignoring
    case, over the greater of the two lengths capped at [max_len]; the index
    of the first equal terminal is returned, -1 when there is none; a NULL
    token is a fatal precondition violation. *)
Fixpoint token_match_from (max_len : nat) (tok_array : list string) (chk_tok : string)
    (i : Z) : Z :=
  match tok_array with
  | [] => -1
  | t :: rest =>
      if strncasecmp t chk_tok (get_longest_str_length t chk_tok max_len) =? 0 then i
      else token_match_from max_len rest chk_tok (i + 1)
  end.

Definition token_match_spec (max_len : nat) (chp : option stream)
    (tok_array : list string) (chk_tok : option string) (num_elems : Z) : M Z :=
  match chk_tok with
  | None => fault
  | Some s => ret (token_match_from max_len tok_array s 0)
  end.

(** A platform to run the handlers on: token positions as in the command
    line [gpio:action:port:pin:direction:sense], the pad mode bits of the
    ChibiOS STM32 GPIOv2 driver, the STM32F4 port addresses, every pad input
    high, and a string length cap of 8 ([board_with_cap] leaves the cap open). *)
Definition port_index (p : GPIO_port) : Z :=
  match p with
  | GPIOA => 0 | GPIOB => 1 | GPIOC => 2 | GPIOD => 3 | GPIOE => 4
  | GPIOF => 5 | GPIOG => 6 | GPIOH => 7 | GPIOI => 8
  end.

Definition pin_index (p : GPIO_pinnum) : Z :=
  match p with
  | PIN0 => 0 | PIN1 => 1 | PIN2 => 2 | PIN3 => 3 | PIN4 => 4 | PIN5 => 5
  | PIN6 => 6 | PIN7 => 7 | PIN8 => 8 | PIN9 => 9 | PIN10 => 10 | PIN11 => 11
  | PIN12 => 12 | PIN13 => 13 | PIN14 => 14 | PIN15 => 15 | NO_GPIO_PIN => 99
  end.

Definition board_with_cap (cap : nat) : FetchDefs :=
  {| ACTION := 1; PORT := 2; PIN := 3; DIRECTION := 4; SENSE := 5;
     MAX_PIN_STR_LEN := cap;
     PAL_STM32_MODE_INPUT := 0;
     PAL_STM32_MODE_OUTPUT := 1;
     PAL_STM32_MODE_ANALOG := 3;
     PAL_STM32_PUDR_FLOATING := 0;
     PAL_STM32_PUDR_PULLUP := 32;
     PAL_STM32_PUDR_PULLDOWN := 64;
     GPIOA_BASE := 1073872896;
     port_address := fun p => 1073872896 + 1024 * port_index p;
     pin_value := pin_index;
     pad_level := fun _ _ => 1;
     file_name := "gpio.c";
     token_match := token_match_spec 25 |}.

Definition board_defs : FetchDefs := board_with_cap 8.

Definition board_terms : Fetch_terminals :=
  {| gpio_subcommandA := ["get"; "set"; "clear"; "config"; "reset"];
     gpio_direction := ["input"; "output"];
     gpio_sense := ["pullup"; "pulldown"; "floating"; "analog"];
     port_subcommand := List.map fst gpio_portmap;
     pin_subcommand := List.map fst gpio_pinmap |}.

End Gpio.

(** ** fetch_dac.c *)

Module FetchDac.

Import UtilMessages.

Definition handler : Type :=
  option stream -> list (option string) -> list (option string) -> M bool.

(** An entry of a command table ([fetch_command_t]); the table ends with an
    entry of NULL fields. *)
Record fetch_command_t : Type :=
  { fc_function : option handler;
    fc_command : option string;
    fc_help : option string }.

(** What fetch_dac.c takes from headers and files that are not part of the
    sources at hand: a token position, driver constants, and the functions
    [fetch_input_check], [fetch_display_help] and [fetch_dispatch] of fetch.c. *)
Class DacDefs : Type :=
  { FETCH_TOK_SUBCMD_0 : nat;
    DAC_DHRM_12BIT_RIGHT : Z;
    GPIOE_SPI4_NSS : Z;
    SPI_CR1_CPHA : Z;
    fetch_input_check :
      option stream -> list (option string) -> nat -> list (option string) -> Z -> M bool;
    fetch_display_help : option stream -> list fetch_command_t -> M unit;
    fetch_dispatch :
      option stream -> list fetch_command_t -> option string ->
      list (option string) -> list (option string) -> M bool }.

(** The globals of the file and the static flag of [fetch_dac_init]. *)
Record dac_state : Type :=
  { dac_init_flag : bool;
    dac1_cfg : DACConfig;
    spi4_cfg : SPIConfig }.

Definition initial_state : dac_state :=
  {| dac_init_flag := false;
     dac1_cfg := {| dac_init := 0; dac_datamode := 0 |};
     spi4_cfg := {| end_cb := None; ssport := None; sspad := 0; cr1 := 0 |} |}.

(** Both parameters are [uint16_t]: the arguments are converted on entry. *)
Definition external_dac_write (channel value : Z) : M bool :=
  let channel := wrapu 16 channel in
  let value := wrapu 16 value in
  if (3 <? channel) || (4095 <? value) then ret false
  else
    let value := wrapu 16 (Z.lor value (Z.shiftl channel 14)) in
    let value := wrapu 16 (Z.lor value (Z.shiftl 1 12)) in
    let tx_data := [wrapu 8 (Z.shiftr value 8); wrapu 8 (Z.land value 255)] in
    emit SpiSelect ;;
    emit (SpiSend tx_data) ;;
    emit SpiUnselect ;;
    ret true.

Definition fetch_dac_reset (chp : option stream) : M bool :=
  emit (DacPutChannelX 0 0) ;;
  external_dac_write 0 0 ;;
  external_dac_write 1 0 ;;
  external_dac_write 2 0 ;;
  external_dac_write 3 0 ;;
  ret true.

(** [strtol(p, &endptr, 0)] on an argument pointer. *)
Definition strtol_ptr (p : option string) : M (Z * string) :=
  match p with
  | None => fault
  | Some s => ret (strtol s)
  end.

(** [*endptr != '\0'] *)
Definition not_at_end (endptr : string) : bool :=
  negb (Ascii.eqb (char_at endptr 0) NUL).

Section Commands.

Context {defs : DacDefs}.

(** The sample of [dacPutChannelX] is recorded as the [int32_t] passed. *)
Definition fetch_dac_write_cmd (chp : option stream)
    (cmd_list data_list : list (option string)) : M bool :=
  ok <- fetch_input_check chp cmd_list FETCH_TOK_SUBCMD_0 data_list 2 ;;
  if negb ok then ret false
  else
    r0 <- strtol_ptr (slot data_list 0) ;;
    let '(channel, endptr) := r0 in
    if not_at_end endptr then
      util_message_error chp (Some "invalid channel") [] ;;
      ret false
    else
      r1 <- strtol_ptr (slot data_list 1) ;;
      let '(value, endptr) := r1 in
      if not_at_end endptr then
        util_message_error chp (Some "invalid value") [] ;;
        ret false
      else if (channel =? 0) || (channel =? 1) || (channel =? 2) || (channel =? 3)
      then external_dac_write channel value
      else if channel =? 4 then
        emit (DacPutChannelX 0 value) ;;
        ret true
      else
        util_message_error chp (Some "invalid channel") [] ;;
        ret false.

Definition fetch_dac_reset_cmd (chp : option stream)
    (cmd_list data_list : list (option string)) : M bool :=
  ok <- fetch_input_check chp cmd_list FETCH_TOK_SUBCMD_0 data_list 0 ;;
  if negb ok then ret false else fetch_dac_reset chp.

(** [fetch_dac_help_cmd] lists the table it belongs to, so the table is built
    from the help handler given its own table. *)
Definition fetch_dac_help_cmd (table : list fetch_command_t) (chp : option stream)
    (cmd_list data_list : list (option string)) : M bool :=
  ok <- fetch_input_check chp cmd_list FETCH_TOK_SUBCMD_0 data_list 0 ;;
  if negb ok then ret false
  else
    util_message_info chp (Some "Fetch DAC Help:") [] ;;
    fetch_display_help chp table ;;
    ret true.

Definition table_entries (help : handler) : list fetch_command_t :=
  [ {| fc_function := Some help; fc_command := Some "help";
       fc_help := Some "DAC command help" |};
    {| fc_function := Some fetch_dac_write_cmd; fc_command := Some "write";
       fc_help := Some ("Write values to DAC" ++ String (ascii_of_nat 10)
                          "Usage: write(<channel>, <value>)")%string |};
    {| fc_function := Some fetch_dac_reset_cmd; fc_command := Some "reset";
       fc_help := Some "Reset all DAC outputs to 0v" |};
    {| fc_function := None; fc_command := None; fc_help := None |} ].

(** The table as the help command shows it: names and help texts. *)
Definition fetch_dac_listing : list fetch_command_t :=
  table_entries (fun _ _ _ => ret true).

Definition fetch_dac_commands : list fetch_command_t :=
  table_entries (fetch_dac_help_cmd fetch_dac_listing).

Definition fetch_dac_init (st : dac_state) (chp : option stream) : M dac_state :=
  if dac_init_flag st then ret st
  else
    let dac1 := {| dac_init := 0; dac_datamode := DAC_DHRM_12BIT_RIGHT |} in
    emit (DacStart dac1) ;;
    let spi4 := {| end_cb := None; ssport := Some GPIOE;
                   sspad := GPIOE_SPI4_NSS; cr1 := SPI_CR1_CPHA |} in
    emit (SpiStart spi4) ;;
    fetch_dac_reset chp ;;
    ret {| dac_init_flag := true; dac1_cfg := dac1; spi4_cfg := spi4 |}.

Definition fetch_dac_dispatch (st : dac_state) (chp : option stream)
    (cmd_list data_list : list (option string)) : M (dac_state * bool) :=
  st' <- fetch_dac_init st chp ;;
  r <- fetch_dispatch chp fetch_dac_commands (slot cmd_list FETCH_TOK_SUBCMD_0)
         cmd_list data_list ;;
  ret (st', r).

End Commands.

(** Modelled from the spec: [fetch_input_check] of fetch.c, which is not among
    the sources.  The token path must be populated up to the expected depth
    and the number of arguments must equal the expected count; a mismatch is
    reported with a diagnostic and answered with failure. *)
Fixpoint populated (l : list (option string)) : nat :=
  match l with
  | Some _ :: r => S (populated r)
  | _ => O
  end.

Definition fetch_input_check_spec (chp : option stream) (cmd_list : list (option string))
    (max_toks : nat) (data_list : list (option string)) (max_data : Z) : M bool :=
  if (populated cmd_list <=? max_toks)%nat then
    util_message_error chp (Some "missing command") [] ;;
    ret false
  else if negb (Z.of_nat (populated data_list) =? max_data) then
    util_message_error chp (Some "invalid number of arguments") [] ;;
    ret false
  else ret true.

(** Modelled from the spec: [fetch_display_help] of fetch.c, which is not
    among the sources; one informational line per entry of the table. *)
Fixpoint fetch_display_help_spec (chp : option stream) (table : list fetch_command_t)
    : M unit :=
  match table with
  | [] => ret tt
  | e :: rest =>
      match fc_function e with
      | None => ret tt
      | Some _ =>
          util_message_info chp (Some "%s: %s") [AStr (fc_command e); AStr (fc_help e)] ;;
          fetch_display_help_spec chp rest
      end
  end.

(** Modelled from the spec: [fetch_dispatch] of fetch.c, which is not among
    the sources.  The table is scanned in order for the entry whose name
    equals the token, ignoring case, over the greater of the two lengths;
    its handler is called and its result returned unchanged; without such an
    entry an error naming the token is emitted and the result is failure. *)
Fixpoint fetch_dispatch_spec (chp : option stream) (table : list fetch_command_t)
    (name : option string) (cmd_list data_list : list (option string)) : M bool :=
  match table with
  | [] => util_message_error chp (Some "unknown command '%s'") [AStr name] ;; ret false
  | e :: rest =>
      match fc_function e, fc_command e, name with
      | Some f, Some c, Some n =>
          if strncasecmp c n (Nat.max (strlen c) (strlen n)) =? 0
          then f chp cmd_list data_list
          else fetch_dispatch_spec chp rest name cmd_list data_list
      | _, _, _ =>
          util_message_error chp (Some "unknown command '%s'") [AStr name] ;; ret false
      end
  end.

(** A platform to run the commands on: the command line [dac:subcommand],
    the 12-bit right-aligned data mode, chip select on pad 11 of port E. *)
Definition board_defs : DacDefs :=
  {| FETCH_TOK_SUBCMD_0 := 1;
     DAC_DHRM_12BIT_RIGHT := 0;
     GPIOE_SPI4_NSS := 11;
     SPI_CR1_CPHA := 1;
     fetch_input_check := fetch_input_check_spec;
     fetch_display_help := fetch_display_help_spec;
     fetch_dispatch := fetch_dispatch_spec |}.

End FetchDac.

(** * Vocabulary of the statements *)

(** A text made of complete lines, each followed by CR LF. *)
Fixpoint unlines (ls : list string) : string :=
  match ls with
  | [] => ""
  | l :: r => (l ++ CRLF ++ unlines r)%string
  end.

Definition verdict (success : bool) : string :=
  if success then "END:OK" else "END:ERROR".

(** Modelled from the spec: the transaction around a dispatched command, whose
    code is not among the sources; [begin()], the handler, then
    [end(success)] with the handler's result. *)
Definition transaction (chp : option stream) (handler : M bool) : M bool :=
  UtilMessages.util_message_begin chp ;;
  success <- handler ;;
  UtilMessages.util_message_end chp success ;;
  ret success.

(** The last character of a format template, and whether it is a line
    terminator. *)
Fixpoint last_char (s : string) : option ascii :=
  match s with
  | EmptyString => None
  | String c EmptyString => Some c
  | String _ r => last_char r
  end.

Definition ends_in_terminator (template : string) : bool :=
  match last_char template with
  | Some c => Ascii.eqb c UtilMessages.LF || Ascii.eqb c UtilMessages.CR
  | None => false
  end.

Definition is_put (e : event) : bool :=
  match e with
  | Put _ _ => true
  | _ => false
  end.

(** A computation that only writes to streams. *)
Definition only_puts {A : Type} (m : M A) : Prop := forallb is_put (trace m) = true.

(** A computation that writes to streams and then, unless it faults on the
    way, releases the semaphore as its last step. *)
Definition puts_then_signal (m : M unit) : Prop :=
  match m with
  | (t, Returned _) => exists puts, forallb is_put puts = true /\ t = puts ++ [SemSignal]
  | (t, Fault) => forallb is_put t = true
  end.

(** The binary semaphore [mshell_io_sem] along a trace: [taken] before,
    [Some taken'] after; [None] when the trace waits on the semaphore while it
    is taken, which blocks the thread. *)
Fixpoint sem_run (taken : bool) (t : list event) : option bool :=
  match t with
  | [] => Some taken
  | SemWait :: r => if taken then None else sem_run true r
  | SemSignal :: r => sem_run false r
  | _ :: r => sem_run taken r
  end.

Definition is_wait (e : event) : bool :=
  match e with
  | SemWait => true
  | _ => false
  end.

Definition is_signal (e : event) : bool :=
  match e with
  | SemSignal => true
  | _ => false
  end.

Definition waits (t : list event) : nat := List.length (filter is_wait t).

Definition signals (t : list event) : nat := List.length (filter is_signal t).

(** The calls of util_messages.c that test their pointers, and whether one of
    the tested pointers of a call is NULL. *)
Definition guarded (c : UtilMessages.call) : bool :=
  match c with
  | UtilMessages.MsgBegin _ | UtilMessages.MsgEnd _ _ => false
  | _ => true
  end.

Definition null_argument (c : UtilMessages.call) : bool :=
  UtilMessages.is_null (UtilMessages.stream_of c)
  || match c with
     | UtilMessages.MsgDebug _ file _ func fmt _ =>
         UtilMessages.is_null fmt || UtilMessages.is_null file || UtilMessages.is_null func
     | UtilMessages.MsgInfo _ fmt _ | UtilMessages.MsgWarning _ fmt _
     | UtilMessages.MsgError _ fmt _ | UtilMessages.MsgString _ _ fmt _ =>
         UtilMessages.is_null fmt
     | _ => false
     end.

(** The arrays of a call hold at least [count] elements. *)
Definition arrays_hold_count (c : UtilMessages.call) : bool :=
  match c with
  | UtilMessages.MsgStringArray _ _ a count => (count <=? List.length a)%nat
  | UtilMessages.MsgDouble _ _ a count => (count <=? List.length a)%nat
  | UtilMessages.MsgInt8 _ _ a count | UtilMessages.MsgUInt8 _ _ a count
  | UtilMessages.MsgInt16 _ _ a count | UtilMessages.MsgUInt16 _ _ a count
  | UtilMessages.MsgInt32 _ _ a count | UtilMessages.MsgUInt32 _ _ a count
  | UtilMessages.MsgHex8 _ _ a count | UtilMessages.MsgHex16 _ _ a count
  | UtilMessages.MsgHex32 _ _ a count => (count <=? List.length a)%nat
  | _ => true
  end.

(** What a call leaves in its trace: nothing, or one wait, writes, and one
    signal; a call that faults after the wait never signals. *)
Definition bracketed (m : M unit) : Prop :=
  match m with
  | (t, Returned _) =>
      t = [] \/ exists puts, forallb is_put puts = true /\ t = SemWait :: puts ++ [SemSignal]
  | (t, Fault) => exists puts, forallb is_put puts = true /\ t = SemWait :: puts
  end.

(** The elements of an array line, separated by commas. *)
Fixpoint join_commas (items : list string) : string :=
  match items with
  | [] => ""
  | [a] => a
  | a :: rest => (a ++ "," ++ join_commas rest)%string
  end.

(** A string with its letters in lower case: two strings are equal ignoring
    case when their folded forms are equal. *)
Fixpoint casefold (s : string) : string :=
  match s with
  | EmptyString => ""
  | String c r => String (tolower c) (casefold r)
  end.

Definition is_pad_op (e : event) : bool :=
  match e with
  | PalReadPad _ _ | PalSetPad _ _ | PalClearPad _ _ | PalSetPadMode _ _ _ => true
  | _ => false
  end.

Definition no_pad_ops (t : list event) : Prop :=
  forallb (fun e => negb (is_pad_op e)) t = true.

(** A token check accepts when it returns an index that is not negative. *)
Definition accepted (m : M Z) : Prop :=
  exists n, result m = Returned n /\ 0 <= n.

(** The port token resolves when the terminal set accepts it and the port
    table yields a port for it; likewise the pin token. *)
Definition port_resolves {defs : Gpio.FetchDefs} (chp : option stream)
    (fetch_terms : Gpio.Fetch_terminals) (tok : option string) : Prop :=
  accepted (Gpio.gpio_is_valid_port_subcommand chp fetch_terms tok)
  /\ exists port, result (Gpio.string_to_gpioport chp tok) = Returned (Some port).

Definition pin_resolves {defs : Gpio.FetchDefs} (chp : option stream)
    (fetch_terms : Gpio.Fetch_terminals) (tok : option string) : Prop :=
  accepted (Gpio.gpio_is_valid_pin_subcommand chp fetch_terms tok)
  /\ exists pin, result (Gpio.string_to_pinnum chp tok) = Returned pin
                 /\ pin <> NO_GPIO_PIN.

(** A call that touches no pad and does not report success. *)
Definition quiet_failure (m : M bool) : Prop :=
  no_pad_ops (trace m) /\ (result m = Returned false \/ result m = Fault).

(** The diagnostic line [E:text] as [util_message_error] leaves it in the
    trace of a call on stream [s]. *)
Definition error_line (s : stream) (text : string) : list event :=
  [SemWait; Put s "E:"; Put s text; Put s CRLF; SemSignal].

Definition is_dac_op (e : event) : bool :=
  match e with
  | DacStart _ | DacPutChannelX _ _ | SpiStart _ | SpiSelect | SpiSend _ | SpiUnselect =>
      true
  | _ => false
  end.

(** [fetch_dac_init] called [n] times in a row, the static flag carried from
    one call to the next. *)
Fixpoint init_times {defs : FetchDac.DacDefs} (n : nat) (st : FetchDac.dac_state)
    (chp : option stream) : M FetchDac.dac_state :=
  match n with
  | O => ret st
  | S n' => st' <- FetchDac.fetch_dac_init st chp ;; init_times n' st' chp
  end.

(** A call that returns. *)
Definition no_fault {A : Type} (m : M A) : Prop := result m <> Fault.

(** The number a string of decimal digits denotes. *)
Fixpoint decimal_from (acc : Z) (s : string) : Z :=
  match s with
  | EmptyString => acc
  | String c r => decimal_from (acc * 10 + (uchar c - 48)) r
  end.

Definition decimal_value (s : string) : Z := decimal_from 0 s.

Fixpoint all_digits (s : string) : bool :=
  match s with
  | EmptyString => true
  | String c r => is_digit c && all_digits r
  end.

(** The 16-bit word of a two-byte SPI frame, most significant byte first, and
    the fields of a DAC124S085 frame: channel in bits 15..14, operation in
    bits 13..12, value in bits 11..0. *)
Definition frame_word (b0 b1 : Z) : Z := 256 * b0 + b1.

Definition frame_channel (word : Z) : Z := Z.shiftr word 14.

Definition frame_op (word : Z) : Z := Z.land (Z.shiftr word 12) 3.

Definition frame_value (word : Z) : Z := Z.land word 4095.

(** The integers from 0 below [n]. *)
Definition zrange (n : nat) : list Z := List.map Z.of_nat (seq 0 n).

(** The bytes [external_dac_write] sends for a channel and a value in range,
    and whether they are bytes that decode to that channel and value with the
    operation "write and update". *)
Definition frame_bytes (channel value : Z) : Z * Z :=
  let word := wrapu 16 (Z.lor (wrapu 16 (Z.lor value (Z.shiftl channel 14)))
                          (Z.shiftl 1 12)) in
  (wrapu 8 (Z.shiftr word 8), wrapu 8 (Z.land word 255)).

Definition frame_decodes (channel value : Z) : bool :=
  let '(b0, b1) := frame_bytes channel value in
  (0 <=? b0) && (b0 <? 256) && (0 <=? b1) && (b1 <? 256)
  && (frame_channel (frame_word b0 b1) =? channel)
  && (frame_op (frame_word b0 b1) =? 1)
  && (frame_value (frame_word b0 b1) =? value).

(** The five writes of [fetch_dac_reset]: the internal converter and the four
    external channels, all to 0. *)
Definition reset_writes : list event :=
  [DacPutChannelX 0 0;
   SpiSelect; SpiSend [16; 0]; SpiUnselect;
   SpiSelect; SpiSend [80; 0]; SpiUnselect;
   SpiSelect; SpiSend [144; 0]; SpiUnselect;
   SpiSelect; SpiSend [208; 0]; SpiUnselect].

Definition is_driver_start (e : event) : bool :=
  match e with
  | DacStart _ | SpiStart _ => true
  | _ => false
  end.

(** [tok] begins with the lower-case word [lit] when case is ignored. *)
Definition begins_with (lit tok : string) : bool :=
  String.eqb (casefold (take (String.length lit) tok)) lit.

(** The mode bits [gpio_config] takes from its direction and sense tokens. *)
Definition direction_bits {defs : Gpio.FetchDefs} (tok : string) : option Z :=
  if begins_with "input" tok then Some Gpio.PAL_STM32_MODE_INPUT
  else if begins_with "output" tok then Some Gpio.PAL_STM32_MODE_OUTPUT
  else None.

Definition sense_bits {defs : Gpio.FetchDefs} (tok : string) : option Z :=
  if begins_with "pullup" tok then Some Gpio.PAL_STM32_PUDR_PULLUP
  else if begins_with "pulldown" tok then Some Gpio.PAL_STM32_PUDR_PULLDOWN
  else if begins_with "floating" tok then Some Gpio.PAL_STM32_PUDR_FLOATING
  else if begins_with "analog" tok then Some Gpio.PAL_STM32_MODE_ANALOG
  else None.

(** The pad operations of a trace, in order. *)
Definition pad_events (t : list event) : list event := filter is_pad_op t.

(** The port and pin tokens of a command list resolve to port [p] and pin
    [q]; [t1] and [t2] are the traces of the two token checks. *)
Definition resolves_to {defs : Gpio.FetchDefs} (chp : option stream)
    (fetch_terms : Gpio.Fetch_terminals) (cmd_list : list (option string))
    (t1 t2 : list event) (p : GPIO_port) (q : GPIO_pinnum) : Prop :=
  (exists v, Gpio.gpio_is_valid_port_subcommand chp fetch_terms (slot cmd_list Gpio.PORT)
             = (t1, Returned v) /\ 0 <= v)
  /\ Gpio.string_to_gpioport chp (slot cmd_list Gpio.PORT) = ret (Some p)
  /\ (exists w, Gpio.gpio_is_valid_pin_subcommand chp fetch_terms (slot cmd_list Gpio.PIN)
                = (t2, Returned w) /\ 0 <= w)
  /\ Gpio.string_to_pinnum chp (slot cmd_list Gpio.PIN) = ret q
  /\ q <> NO_GPIO_PIN.

(** A call that returns true and whose only pad operation is [op]. *)
Definition only_pad_op (m : M bool) (op : event) : Prop :=
  result m = Returned true /\ pad_events (trace m) = [op].

(** What a caller sees of a call when only the pads matter: its outcome and
    its pad operations. *)
Definition pad_run {A : Type} (m : M A) : outcome A * list event :=
  (result m, pad_events (trace m)).

(** The handler [gpio_dispatch] hands an accepted action token to, by the
    word the token begins with. *)
Definition routed {defs : Gpio.FetchDefs} (chp : option stream)
    (cmd_list : list (option string)) (fetch_terms : Gpio.Fetch_terminals)
    (action : string) : M bool :=
  if begins_with "get" action then Gpio.gpio_get chp fetch_terms cmd_list
  else if begins_with "set" action then Gpio.gpio_set chp fetch_terms cmd_list
  else if begins_with "clear" action then Gpio.gpio_clear chp fetch_terms cmd_list
  else if begins_with "config" action then
    match slot cmd_list Gpio.DIRECTION, slot cmd_list Gpio.SENSE with
    | Some _, Some _ => Gpio.gpio_config chp fetch_terms cmd_list
    | _, _ => ret false
    end
  else
    Gpio.DBG_MSG chp 338 "gpio_dispatch" "sub-command not ready yet..." ;;
    ret false.

(** The number a string of hexadecimal digits denotes, and the strings made
    of the digits 0-9 and A-F only. *)
Definition hex_digit_value (c : ascii) : Z :=
  match digit_of c with
  | Some d => d
  | None => 0
  end.

Fixpoint hex_from (acc : Z) (s : string) : Z :=
  match s with
  | EmptyString => acc
  | String c r => hex_from (acc * 16 + hex_digit_value c) r
  end.

Definition hex_value (s : string) : Z := hex_from 0 s.

Definition is_upper_hex (c : ascii) : bool :=
  let n := nat_of_ascii c in
  ((48 <=? n)%nat && (n <=? 57)%nat) || ((65 <=? n)%nat && (n <=? 70)%nat).

Fixpoint all_upper_hex (s : string) : bool :=
  match s with
  | EmptyString => true
  | String c r => is_upper_hex c && all_upper_hex r
  end.

(** The number a decimal numeral with an optional minus sign denotes. *)
Definition signed_value (s : string) : Z :=
  match s with
  | String "-"%char r => - decimal_value r
  | _ => decimal_value s
  end.

(** The text [%s] prints for a name. *)
Definition name_text (name : option string) : string := render "%s" [AStr name].

(** A text without a conversion specification. *)
Fixpoint no_percent (s : string) : bool :=
  match s with
  | EmptyString => true
  | String c r => negb (Ascii.eqb c "%"%char) && no_percent r
  end.

(** The integer array functions of util_messages.c with the tag of their
    line, the conversion of their elements and the element type. *)
Definition int_array_functions
    : list (string * string * (Z -> Z)
            * (option stream -> option string -> list Z -> nat -> M unit)) :=
  [ ("S8:", "%d", wraps 8, UtilMessages.util_message_int8);
    ("U8:", "%u", wrapu 8, UtilMessages.util_message_uint8);
    ("S16:", "%d", wraps 16, UtilMessages.util_message_int16);
    ("U16:", "%u", wrapu 16, UtilMessages.util_message_uint16);
    ("S32:", "%d", wraps 32, UtilMessages.util_message_int32);
    ("U32:", "%d", wrapu 32, UtilMessages.util_message_uint32);
    ("H8:", "%02X", wrapu 8, UtilMessages.util_message_hex_uint8);
    ("H16:", "%04X", wrapu 16, UtilMessages.util_message_hex_uint16);
    ("H32:", "%08X", wrapu 32, UtilMessages.util_message_hex_uint32) ].

(** The line of an array emission: tag, name, the items separated by commas,
    CR LF. *)
Definition array_line (tag : string) (name : option string) (items : list string)
    : string :=
  (tag ++ name_text name ++ ":" ++ join_commas items ++ CRLF)%string.

(** A decimal numeral with an optional minus sign. *)
Definition is_signed_numeral (t : string) : bool :=
  match t with
  | String "-"%char r => all_digits r && (0 <? String.length r)%nat
  | _ => all_digits t && (0 <? String.length t)%nat
  end.

(** A line of hexadecimal items of a fixed width that read back as the given
    values at the given element width, and a line of signed decimal items that
    read back as the given values. *)
Definition hex_line (tag : string) (width : nat) (bits : Z) (name : option string)
    (values : list Z) (line : string) : Prop :=
  exists items : list string,
    line = array_line tag name items
    /\ Forall (fun t => String.length t = width /\ all_upper_hex t = true) items
    /\ List.map hex_value items = List.map (wrapu bits) values.

Definition signed_line (tag : string) (bits : Z) (name : option string)
    (values : list Z) (line : string) : Prop :=
  exists items : list string,
    line = array_line tag name items
    /\ Forall (fun t => is_signed_numeral t = true) items
    /\ List.map signed_value items = List.map (wraps bits) values.

(** * Verification *)

(** ** The monad of calls *)

Lemma bind_returned {A B : Type} (m : M A) (k : A -> M B) (t : list event) (a : A) :
  m = (t, Returned a) -> bind m k = (t ++ trace (k a), result (k a)).
Proof.
  intros ->. unfold bind, trace, result. destruct (k a); reflexivity.
Qed.

Lemma bind_ret {A B : Type} (a : A) (k : A -> M B) : bind (ret a) k = k a.
Proof. unfold bind, ret. destruct (k a). reflexivity. Qed.

Lemma bind_fault {A B : Type} (m : M A) (k : A -> M B) (t : list event) :
  m = (t, Fault) -> bind m k = (t, Fault).
Proof. intros ->. reflexivity. Qed.

Lemma trace_bind {A B : Type} (m : M A) (k : A -> M B) :
  trace (bind m k) =
  match result m with
  | Returned a => trace m ++ trace (k a)
  | Fault => trace m
  end.
Proof.
  destruct m as [t [a|]]; unfold bind, trace, result; simpl; [destruct (k a)|]; reflexivity.
Qed.

Lemma result_bind {A B : Type} (m : M A) (k : A -> M B) :
  result (bind m k) =
  match result m with
  | Returned a => result (k a)
  | Fault => Fault
  end.
Proof.
  destruct m as [t [a|]]; unfold bind, trace, result; simpl; [destruct (k a)|]; reflexivity.
Qed.

Lemma emitted_app (s : stream) (t1 t2 : list event) :
  emitted s (t1 ++ t2) = (emitted s t1 ++ emitted s t2)%string.
Proof.
  induction t1 as [|e t1 IH]; simpl; [reflexivity|].
  destruct e; auto.
  destruct (Nat.eqb s chp); [|assumption].
  rewrite IH. clear. induction text; simpl; congruence.
Qed.

Lemma string_app_assoc (a b c : string) : ((a ++ b) ++ c = a ++ (b ++ c))%string.
Proof. induction a; simpl; congruence. Qed.

Lemma string_app_empty (a : string) : (a ++ "" = a)%string.
Proof. induction a; simpl; congruence. Qed.

(** ** The library models on sample inputs *)

Example render_samples :
  render "B:%s:true" [AStr (Some "led")] = "B:led:true"
  /\ render "%d,%u" [AInt (-5); AInt 65535] = "-5,65535"
  /\ render "%02X|%04X|%08X" [AInt 10; AInt 255; AInt 3735928559] = "0A|00FF|DEADBEEF"
  /\ render "?:%s:%d:%s:" [AStr (Some "gpio.c"); AInt 256; AStr (Some "gpio_config")]
     = "?:gpio.c:256:gpio_config:"
  /\ render "%u" [AInt 0] = "0"
  /\ render "%s" [AStr None] = "(null)".
Proof. repeat split; reflexivity. Qed.

Example strtol_samples :
  strtol "12" = (12, "")
  /\ strtol "  -0x1F rest" = (-31, " rest")
  /\ strtol "077" = (63, "")
  /\ strtol "12abc" = (12, "abc")
  /\ strtol "abc" = (0, "abc")
  /\ strtol "" = (0, "")
  /\ strtol "99999999999" = (2147483647, "").
Proof. repeat split; reflexivity. Qed.

(** ** util_messages.c: framing (C3) *)

Lemma unlines_app (a b : list string) :
  unlines (a ++ b) = (unlines a ++ unlines b)%string.
Proof.
  induction a as [|l a IH]; simpl; [reflexivity|].
  rewrite IH, !string_app_assoc. reflexivity.
Qed.

(** C3: on a stream [s], [util_message_begin] writes exactly the line
    [BEGIN:] followed by CR LF, and [util_message_end] writes exactly the line
    [END:OK] when [success] is true and [END:ERROR] when it is false, each in
    one write under the semaphore; a transaction around a handler whose output
    is the lines [ls] is the lines [BEGIN:], [ls], and one END line carrying
    the handler's result. *)
Theorem begin_end_frame (s : stream) :
  UtilMessages.util_message_begin (Some s)
    = ([SemWait; Put s (unlines ["BEGIN:"]); SemSignal], Returned tt)
  /\ (forall success : bool,
        UtilMessages.util_message_end (Some s) success
          = ([SemWait; Put s (unlines [verdict success]); SemSignal], Returned tt))
  /\ UtilMessages.util_message_end (Some s) true
       = ([SemWait; Put s ("END:OK" ++ CRLF); SemSignal], Returned tt)
  /\ UtilMessages.util_message_end (Some s) false
       = ([SemWait; Put s ("END:ERROR" ++ CRLF); SemSignal], Returned tt)
  /\ (forall (handler : M bool) (t : list event) (success : bool) (ls : list string),
        handler = (t, Returned success) ->
        emitted s t = unlines ls ->
        result (transaction (Some s) handler) = Returned success
        /\ emitted s (trace (transaction (Some s) handler))
           = unlines ("BEGIN:" :: ls ++ [verdict success])).
Proof.
  split; [reflexivity|].
  split; [intros [|]; reflexivity|].
  split; [reflexivity|].
  split; [reflexivity|].
  intros handler t success ls -> Hls.
  assert (Hrun : transaction (Some s) (t, Returned success)
                 = ([SemWait; Put s (unlines ["BEGIN:"]); SemSignal] ++ t
                      ++ [SemWait; Put s (unlines [verdict success]); SemSignal],
                    Returned success))
    by (destruct success; reflexivity).
  rewrite Hrun. unfold result, trace; cbn [fst snd].
  split; [reflexivity|].
  rewrite !emitted_app, Hls. cbn [emitted]. rewrite Nat.eqb_refl.
  change ("BEGIN:" :: ls ++ [verdict success]) with (["BEGIN:"] ++ ls ++ [verdict success]).
  rewrite !unlines_app, !string_app_empty. reflexivity.
Qed.

(** ** util_messages.c: line terminators (C7) *)

Section Newline.

Import UtilMessages.

Lemma char_at_last (c : ascii) (r : string) :
  Some (char_at (String c r) (String.length r)) = last_char (String c r).
Proof.
  revert c. induction r as [|d r IH]; intros c; [reflexivity|].
  change (last_char (String c (String d r))) with (last_char (String d r)).
  rewrite <- (IH d). reflexivity.
Qed.

Lemma needs_newline_template (fmt : string) :
  needs_newline (Some fmt) = negb (ends_in_terminator fmt).
Proof.
  destruct fmt as [|c r]; [reflexivity|].
  unfold needs_newline, ends_in_terminator, strlen.
  rewrite <- char_at_last.
  replace (String.length (String c r) - 1)%nat with (String.length r)
    by (cbn [String.length]; lia).
  reflexivity.
Qed.

Lemma last_char_app (p : string) (c : ascii) :
  last_char (p ++ String c "") = Some c.
Proof.
  induction p as [|d p IH]; [reflexivity|].
  cbn [append last_char]. rewrite IH.
  destruct (p ++ String c "")%string eqn:E; [|reflexivity].
  destruct p; discriminate.
Qed.

Lemma last_char_split (f : string) (c : ascii) :
  last_char f = Some c -> exists p, f = (p ++ String c "")%string.
Proof.
  induction f as [|d f IH]; [discriminate|].
  destruct f as [|e f].
  - intros [= ->]. exists "". reflexivity.
  - intros H. destruct (IH H) as [p Hp]. exists (String d p). cbn [append]. rewrite <- Hp.
    reflexivity.
Qed.

Lemma ends_in_terminator_iff (fmt : string) :
  ends_in_terminator fmt = true
  <-> exists p c, fmt = (p ++ String c "")%string /\ (c = LF \/ c = CR).
Proof.
  unfold ends_in_terminator. split.
  - destruct (last_char fmt) as [c|] eqn:E; [|discriminate].
    intros H. destruct (last_char_split _ _ E) as [p ->].
    exists p, c. split; [reflexivity|].
    apply orb_true_iff in H. destruct H as [H|H]; apply Ascii.eqb_eq in H; auto.
  - intros (p & c & -> & Hc). rewrite last_char_app.
    destruct Hc as [-> | ->]; reflexivity.
Qed.

(** C7: each formatted emission (debug, info, warning, error, string) on a
    stream [s] with template [fmt] writes its prefix, the rendered template,
    and then CR LF if and only if the last character of the template is
    neither LF nor CR; the rendered text plays no part in that choice. *)
Theorem newline_from_template (s : stream) (fmt : string) (args : list arg) :
  let tail := if ends_in_terminator fmt then [] else [Put s CRLF] in
  (ends_in_terminator fmt = true
   <-> exists p c, fmt = (p ++ String c "")%string /\ (c = LF \/ c = CR))
  /\ (forall (file func : string) (line : Z),
        util_message_debug (Some s) (Some file) line (Some func) (Some fmt) args
        = ([SemWait;
            Put s (render "?:%s:%d:%s:" [AStr (Some file); AInt line; AStr (Some func)]);
            Put s (render fmt args)] ++ tail ++ [SemSignal], Returned tt))
  /\ util_message_info (Some s) (Some fmt) args
     = ([SemWait; Put s "#:"; Put s (render fmt args)] ++ tail ++ [SemSignal],
        Returned tt)
  /\ util_message_warning (Some s) (Some fmt) args
     = ([SemWait; Put s "W:"; Put s (render fmt args)] ++ tail ++ [SemSignal],
        Returned tt)
  /\ util_message_error (Some s) (Some fmt) args
     = ([SemWait; Put s "E:"; Put s (render fmt args)] ++ tail ++ [SemSignal],
        Returned tt)
  /\ (forall name : option string,
        util_message_string (Some s) name (Some fmt) args
        = ([SemWait; Put s (render "S:%s:" [AStr name]); Put s (render fmt args)]
             ++ tail ++ [SemSignal], Returned tt)).
Proof.
  cbv zeta. split; [apply ends_in_terminator_iff|].
  unfold util_message_debug, util_message_info, util_message_warning,
    util_message_error, util_message_string, newline_if_needed.
  rewrite needs_newline_template.
  destruct (ends_in_terminator fmt); repeat split; intros; reflexivity.
Qed.

(** The terminator follows the template, not the text: a payload that ends in
    CR LF under the template [%s] is given a second CR LF. *)
Example template_not_payload :
  emitted 0%nat (trace (util_message_info (Some 0%nat) (Some "%s") [AStr (Some ("done" ++ CRLF)%string)]))
  = ("#:done" ++ CRLF ++ CRLF)%string.
Proof. reflexivity. Qed.

End Newline.

(** ** util_messages.c: the output semaphore (C8, C10) *)

Section Semaphore.

Import UtilMessages.

Create HintDb puts.

Lemma only_puts_ret {A : Type} (a : A) : only_puts (ret a).
Proof. reflexivity. Qed.

Lemma only_puts_fault {A : Type} : only_puts (@fault A).
Proof. reflexivity. Qed.

Lemma only_puts_chvprintf (chp : option stream) (fmt : string) (args : list arg) :
  only_puts (chvprintf chp fmt args).
Proof. destruct chp; reflexivity. Qed.

Lemma only_puts_chprintf (chp : option stream) (fmt : string) (args : list arg) :
  only_puts (chprintf chp fmt args).
Proof. apply only_puts_chvprintf. Qed.

Lemma only_puts_bind {A B : Type} (m : M A) (k : A -> M B) :
  only_puts m -> (forall a, only_puts (k a)) -> only_puts (bind m k).
Proof.
  unfold only_puts. intros Hm Hk. rewrite trace_bind.
  destruct (result m) as [a|]; [|assumption].
  rewrite forallb_app, Hm. apply Hk.
Qed.

Lemma only_puts_if {A : Type} (b : bool) (m1 m2 : M A) :
  only_puts m1 -> only_puts m2 -> only_puts (if b then m1 else m2).
Proof. destruct b; auto. Qed.

Lemma only_puts_chvprintf_ptr (chp : option stream) (fmt : option string)
    (args : list arg) :
  only_puts (chvprintf_ptr chp fmt args).
Proof. destruct fmt; [apply only_puts_chvprintf | reflexivity]. Qed.

Lemma only_puts_newline (chp : option stream) (fmt : option string) :
  only_puts (newline_if_needed chp fmt).
Proof.
  unfold newline_if_needed. apply only_puts_if;
    [apply only_puts_chprintf | apply only_puts_ret].
Qed.

#[local] Hint Resolve only_puts_ret only_puts_fault only_puts_chvprintf
  only_puts_chprintf only_puts_chvprintf_ptr only_puts_newline : puts.

Lemma only_puts_count_loop (chp : option stream) (fmt : string) (elem : Z -> Z)
    (count : nat) :
  forall data, only_puts (count_loop chp fmt elem data count).
Proof.
  induction count as [|n IH]; intros data; cbn [count_loop]; [auto with puts|].
  destruct data as [|x data]; [auto with puts|].
  apply only_puts_bind; [auto with puts|intros _].
  apply only_puts_bind; [apply only_puts_if; auto with puts|intros _].
  apply IH.
Qed.

Lemma only_puts_index_loop {A : Type} (chp : option stream) (fmt : string)
    (mk : A -> arg) (array : list A) (count : nat) (todo : nat) :
  forall i, only_puts (index_loop chp fmt mk array count i todo).
Proof.
  induction todo as [|n IH]; intros i; cbn [index_loop]; [auto with puts|].
  destruct (nth_error array i); [|auto with puts].
  apply only_puts_bind; [auto with puts|intros _].
  apply only_puts_bind; [apply only_puts_if; auto with puts|intros _].
  apply IH.
Qed.

#[local] Hint Resolve only_puts_count_loop only_puts_index_loop : puts.

Lemma signal_last : puts_then_signal chBSemSignal.
Proof. exists []. split; reflexivity. Qed.

Lemma puts_then_signal_bind {A : Type} (m : M A) (k : A -> M unit) :
  only_puts m -> (forall a, puts_then_signal (k a)) -> puts_then_signal (bind m k).
Proof.
  unfold only_puts, trace. destruct m as [t [a|]]; cbn [fst bind]; intros Hm Hk; [|assumption].
  specialize (Hk a). destruct (k a) as [t' [u|]]; cbn [puts_then_signal] in *.
  - destruct Hk as (puts & Hputs & ->). exists (t ++ puts). split.
    + rewrite forallb_app, Hm, Hputs. reflexivity.
    + apply app_assoc.
  - rewrite forallb_app, Hm, Hk. reflexivity.
Qed.

Lemma bracketed_ret : bracketed (ret tt).
Proof. left. reflexivity. Qed.

Lemma bracketed_wait (m : M unit) :
  puts_then_signal m -> bracketed (chBSemWait ;; m).
Proof.
  destruct m as [t [u|]]; cbn; intros H.
  - right. destruct H as (puts & Hputs & ->). exists puts. auto.
  - exists t. auto.
Qed.

Ltac bracket :=
  first
    [ apply bracketed_ret
    | apply bracketed_wait;
      repeat (apply puts_then_signal_bind;
              [ first [ apply only_puts_if; auto with puts | auto with puts ] | intros _ ]);
      apply signal_last ].

Lemma run_bracketed (c : call) : bracketed (run c).
Proof.
  destruct c; cbn [run];
    unfold util_message_begin, util_message_end, util_message_debug,
      util_message_info, util_message_warning, util_message_error,
      util_message_bool, util_message_string, util_message_string_array,
      util_message_double, util_message_int8, util_message_uint8,
      util_message_int16, util_message_uint16, util_message_int32,
      util_message_uint32, util_message_hex_uint8, util_message_hex_uint16,
      util_message_hex_uint32, int_array;
    try match goal with
        | |- bracketed (if ?b then _ else _) => destruct b
        end;
    bracket.
Qed.

Lemma sem_run_puts (taken : bool) (puts rest : list event) :
  forallb is_put puts = true -> sem_run taken (puts ++ rest) = sem_run taken rest.
Proof.
  induction puts as [|e puts IH]; [reflexivity|].
  cbn [forallb app]. intros H. apply andb_true_iff in H. destruct H as [He H].
  destruct e; try discriminate. cbn [sem_run]. auto.
Qed.

Lemma filter_puts (f : event -> bool) (puts : list event) :
  (forall s text, f (Put s text) = false) ->
  forallb is_put puts = true -> filter f puts = [].
Proof.
  intros Hf. induction puts as [|e puts IH]; [reflexivity|].
  cbn [forallb filter]. intros H. apply andb_true_iff in H. destruct H as [He H].
  destruct e; try discriminate. rewrite Hf. auto.
Qed.

Lemma run_returns (c : call) (s : stream) :
  stream_of c = Some s -> arrays_hold_count c = true -> result (run c) = Returned tt.
Proof.
  assert (Hcount : forall fmt elem count data,
             (count <= List.length data)%nat ->
             result (count_loop (Some s) fmt elem data count) = Returned tt).
  { induction count as [|n IH]; intros data Hlen; [reflexivity|].
    destruct data as [|x data]; cbn [List.length] in Hlen; [lia|].
    cbn [count_loop]. rewrite !result_bind. cbn [chprintf chvprintf emit result snd].
    destruct (1 <? S n)%nat; cbn [chprintf chvprintf emit ret result snd];
      apply IH; lia. }
  assert (Hindex : forall (A : Type) fmt (mk : A -> arg) array count todo i,
             (i + todo <= List.length array)%nat ->
             result (index_loop (Some s) fmt mk array count i todo) = Returned tt).
  { induction todo as [|n IH]; intros i Hlen; [reflexivity|].
    cbn [index_loop]. destruct (nth_error array i) eqn:E.
    - rewrite !result_bind. cbn [chprintf chvprintf emit result snd].
      destruct (i + 1 <? count)%nat; cbn [chprintf chvprintf emit ret result snd];
        apply IH; lia.
    - apply nth_error_None in E. lia. }
  destruct c; cbn [stream_of arrays_hold_count run]; intros -> Harr;
    try apply Nat.leb_le in Harr;
    unfold util_message_begin, util_message_end, util_message_debug,
      util_message_info, util_message_warning, util_message_error,
      util_message_bool, util_message_string, util_message_string_array,
      util_message_double, util_message_int8, util_message_uint8,
      util_message_int16, util_message_uint16, util_message_int32,
      util_message_uint32, util_message_hex_uint8, util_message_hex_uint16,
      util_message_hex_uint32, int_array, newline_if_needed;
    repeat match goal with
           | p : option string |- _ => destruct p
           end;
    cbn [is_null orb];
    repeat match goal with
           | |- context [if ?b then _ else _] => destruct b
           end;
    rewrite ?result_bind; cbn [chBSemWait chBSemSignal chprintf chvprintf chvprintf_ptr
                                 emit ret result snd is_null orb];
    rewrite ?result_bind, ?Hcount, ?Hindex by (cbn [Nat.add]; lia);
    cbn [chBSemWait chBSemSignal chprintf chvprintf emit ret result snd];
    rewrite ?result_bind; try reflexivity.
Qed.

(** C8: every call of an emission function leaves either nothing in its trace
    or exactly one wait on [mshell_io_sem], then writes only, then exactly one
    signal; with a stream and arrays of at least [count] elements the call
    returns; and a call that returns leaves the semaphore free when it found
    it free, without ever blocking on it, with as many waits as signals. *)
Theorem semaphore_balanced (c : call) :
  bracketed (run c)
  /\ (forall s : stream,
        stream_of c = Some s -> arrays_hold_count c = true ->
        result (run c) = Returned tt)
  /\ (result (run c) = Returned tt ->
      sem_run false (trace (run c)) = Some false
      /\ waits (trace (run c)) = signals (trace (run c))
      /\ (waits (trace (run c)) <= 1)%nat).
Proof.
  split; [apply run_bracketed|].
  split; [intros s; apply run_returns|].
  pose proof (run_bracketed c) as H.
  destruct (run c) as [t [u|]]; cbn [bracketed result trace fst snd] in *; [|discriminate].
  intros _. destruct H as [-> | (puts & Hputs & ->)].
  - repeat split. cbn. lia.
  - cbn [sem_run]. rewrite sem_run_puts by assumption.
    unfold waits, signals. cbn [filter is_wait is_signal].
    rewrite !filter_app, !(filter_puts _ _ (fun _ _ => eq_refl) Hputs).
    repeat split. cbn. lia.
Qed.

(** C10: with a NULL stream, [util_message_begin] and [util_message_end] wait
    on the semaphore and then use the stream; the functions that test their
    pointers leave no trace when a tested pointer is NULL. *)
Theorem begin_end_wait_on_null_stream :
  util_message_begin None = ([SemWait], Fault)
  /\ (forall success : bool, util_message_end None success = ([SemWait], Fault))
  /\ (forall c : call,
        guarded c = true -> null_argument c = true -> run c = ([], Returned tt)).
Proof.
  split; [reflexivity|].
  split; [intros [|]; reflexivity|].
  intros c Hg Hn.
  destruct c; try discriminate Hg; cbn [run];
    unfold null_argument in Hn; cbn [stream_of] in Hn;
    unfold util_message_debug, util_message_info, util_message_warning,
      util_message_error, util_message_bool, util_message_string,
      util_message_string_array, util_message_double, util_message_int8,
      util_message_uint8, util_message_int16, util_message_uint16,
      util_message_int32, util_message_uint32, util_message_hex_uint8,
      util_message_hex_uint16, util_message_hex_uint32, int_array;
    repeat match goal with
           | p : option string |- _ => destruct p
           | p : option stream |- _ => destruct p
           end;
    cbn [is_null orb] in *; try discriminate Hn; reflexivity.
Qed.

End Semaphore.

(** ** util_messages.c: integer arrays (C6) *)

Section IntegerArrays.

Import UtilMessages.

Lemma pad_no_width (body : string) : pad false " "%char 0 body = body.
Proof.
  unfold pad. cbn [Nat.sub fill append Ascii.eqb Bool.eqb].
  destruct body as [|c r]; [reflexivity|].
  destruct c as [[|] [|] [|] [|] [|] [|] [|] [|]]; reflexivity.
Qed.

Lemma render_unsigned (v : Z) : render "%u" [AInt v] = unsigned_text v 10.
Proof.
  change (render "%u" [AInt v])
    with (pad false " "%char 0 (unsigned_text v 10) ++ "")%string.
  rewrite pad_no_width. apply string_app_empty.
Qed.

Lemma render_signed (v : Z) : render "%d" [AInt v] = signed_text v.
Proof.
  change (render "%d" [AInt v])
    with (pad false " "%char 0 (signed_text v) ++ "")%string.
  rewrite pad_no_width. apply string_app_empty.
Qed.

Lemma count_loop_text (s : stream) (fmt : string) (elem : Z -> Z) (data : list Z) :
  result (count_loop (Some s) fmt elem data (List.length data)) = Returned tt
  /\ emitted s (trace (count_loop (Some s) fmt elem data (List.length data)))
     = join_commas (List.map (fun x => render fmt [AInt (elem x)]) data).
Proof.
  induction data as [|x data [IHr IHt]]; [split; reflexivity|].
  change (count_loop (Some s) fmt elem (x :: data) (List.length (x :: data)))
    with (chprintf (Some s) fmt [AInt (elem x)] ;;
          (if (1 <? S (List.length data))%nat then chprintf (Some s) "," [] else ret tt) ;;
          count_loop (Some s) fmt elem data (List.length data)).
  destruct (count_loop (Some s) fmt elem data (List.length data)) as [t r] eqn:E.
  unfold result, trace in *. cbn [fst snd] in *. subst r.
  destruct data as [|y data].
  - cbn in E. injection E as <-. cbn. rewrite Nat.eqb_refl, string_app_empty. auto.
  - change (join_commas (List.map (fun x => render fmt [AInt (elem x)]) (x :: y :: data)))
      with (render fmt [AInt (elem x)] ++ "," ++
            join_commas (List.map (fun x => render fmt [AInt (elem x)]) (y :: data)))%string.
    rewrite <- IHt.
    cbn [List.length Nat.ltb Nat.leb].
    unfold chprintf, chvprintf, emit, bind, ret. cbn [fst snd app emitted].
    rewrite !Nat.eqb_refl. split; reflexivity.
Qed.

Lemma int_array_text (tag fmt : string) (elem : Z -> Z) (s : stream)
    (name : option string) (data : list Z) :
  result (int_array tag fmt elem (Some s) name data (List.length data)) = Returned tt
  /\ emitted s (trace (int_array tag fmt elem (Some s) name data (List.length data)))
     = (render tag [AStr name]
        ++ join_commas (List.map (fun x => render fmt [AInt (elem x)]) data)
        ++ CRLF)%string.
Proof.
  destruct (count_loop_text s fmt elem data) as [Hr Ht].
  unfold int_array. cbn [is_null].
  destruct (count_loop (Some s) fmt elem data (List.length data)) as [t r] eqn:E.
  unfold result, trace in *. cbn [fst snd] in *. subst r.
  unfold chBSemWait, chBSemSignal, chprintf, chvprintf, emit, bind.
  cbn [fst snd app emitted]. rewrite Nat.eqb_refl, emitted_app, Ht.
  cbn [emitted]. rewrite Nat.eqb_refl, string_app_empty. auto.
Qed.

(** The digit loop prints the decimal numeral of its argument, without a
    leading zero. *)
Lemma digit_char_value (d : Z) : 0 <= d < 10 -> uchar (digit_char d) - 48 = d.
Proof.
  intros H.
  assert (Hd : d = 0 \/ d = 1 \/ d = 2 \/ d = 3 \/ d = 4 \/ d = 5 \/ d = 6 \/ d = 7
               \/ d = 8 \/ d = 9) by lia.
  repeat (destruct Hd as [-> | Hd]; [reflexivity|]). subst d. reflexivity.
Qed.

Lemma ltoa_loop_acc (fuel : nat) (radix : Z) :
  forall l acc, ltoa_loop fuel l radix acc = (ltoa_loop fuel l radix "" ++ acc)%string.
Proof.
  induction fuel as [|fuel IH]; intros l acc; [reflexivity|].
  cbn [ltoa_loop]. destruct (l / radix =? 0); [reflexivity|].
  rewrite IH, (IH _ (String _ "")), string_app_assoc. reflexivity.
Qed.

Lemma decimal_from_app (s : string) (c : ascii) :
  forall acc, decimal_from acc (s ++ String c "") = decimal_from acc s * 10 + (uchar c - 48).
Proof. induction s as [|d s IH]; intros acc; cbn; [reflexivity | apply IH]. Qed.

Lemma ltoa_loop_value (fuel : nat) :
  forall l, 0 <= l < 10 ^ Z.of_nat fuel ->
  decimal_value (ltoa_loop fuel l 10 "") = l.
Proof.
  unfold decimal_value.
  induction fuel as [|fuel IH]; intros l Hl.
  - cbn in Hl. assert (l = 0) by lia. subst l. reflexivity.
  - cbn [ltoa_loop].
    assert (Hmod : 0 <= l mod 10 < 10) by (apply Z.mod_pos_bound; lia).
    pose proof (Z.div_mod l 10 ltac:(lia)) as Hdm.
    destruct (Z.eqb_spec (l / 10) 0) as [Hz | Hnz].
    + cbn [decimal_from]. rewrite digit_char_value by assumption. lia.
    + rewrite ltoa_loop_acc, decimal_from_app, digit_char_value by assumption.
      rewrite IH; [lia|].
      rewrite Nat2Z.inj_succ, Z.pow_succ_r in Hl by lia.
      split; [apply Z.div_pos; lia | apply Z.div_lt_upper_bound; lia].
Qed.

Lemma ltoa_loop_leading (fuel : nat) :
  forall l acc r, 0 < l < 10 ^ Z.of_nat fuel ->
  ltoa_loop fuel l 10 acc <> String "0"%char r.
Proof.
  induction fuel as [|fuel IH]; intros l acc r Hl.
  - cbn in Hl. lia.
  - cbn [ltoa_loop].
    pose proof (Z.div_mod l 10 ltac:(lia)) as Hdm.
    assert (Hmod : 0 <= l mod 10 < 10) by (apply Z.mod_pos_bound; lia).
    destruct (Z.eqb_spec (l / 10) 0) as [Hz | Hnz].
    + intros [= H _].
      assert (Hv : uchar (digit_char (l mod 10)) - 48 = 0) by (rewrite H; reflexivity).
      rewrite digit_char_value in Hv by assumption. lia.
    + apply IH.
      rewrite Nat2Z.inj_succ, Z.pow_succ_r in Hl by lia.
      assert (0 <= l / 10) by (apply Z.div_pos; lia).
      split; [lia | apply Z.div_lt_upper_bound; lia].
Qed.

Lemma digit_char_is_digit (d : Z) : 0 <= d < 10 -> is_digit (digit_char d) = true.
Proof.
  intros H.
  assert (Hd : d = 0 \/ d = 1 \/ d = 2 \/ d = 3 \/ d = 4 \/ d = 5 \/ d = 6 \/ d = 7
               \/ d = 8 \/ d = 9) by lia.
  repeat (destruct Hd as [-> | Hd]; [reflexivity|]). subst d. reflexivity.
Qed.

Lemma ltoa_loop_digits (fuel : nat) :
  forall l acc, all_digits acc = true -> all_digits (ltoa_loop fuel l 10 acc) = true.
Proof.
  induction fuel as [|fuel IH]; intros l acc Hacc; [exact Hacc|].
  cbn [ltoa_loop].
  assert (Hd : all_digits (String (digit_char (l mod 10)) acc) = true).
  { cbn [all_digits]. rewrite Hacc, digit_char_is_digit; [reflexivity|].
    apply Z.mod_pos_bound. lia. }
  destruct (l / 10 =? 0); [exact Hd | apply IH, Hd].
Qed.

Lemma ltoa_decimal (n : Z) :
  0 <= n < 4294967296 ->
  all_digits (ltoa n 10) = true
  /\ decimal_value (ltoa n 10) = n
  /\ (n <> 0 -> forall r, ltoa n 10 <> String "0"%char r).
Proof.
  intros Hn. assert (Hpow : 4294967296 < 10 ^ Z.of_nat 32) by reflexivity.
  split; [apply ltoa_loop_digits; reflexivity|].
  split.
  - apply ltoa_loop_value. lia.
  - intros Hnz r. apply ltoa_loop_leading. lia.
Qed.

Lemma signed_text_high (x : Z) :
  2147483648 <= x < 4294967296 ->
  signed_text (wrapu 32 x) = String "-"%char (ltoa (4294967296 - x) 10).
Proof.
  intros Hx. unfold signed_text, wraps, wrapu.
  change (2 ^ 32) with 4294967296. change (2 ^ (32 - 1)) with 2147483648.
  rewrite Z.mod_mod by lia. rewrite (Z.mod_small x) by lia.
  replace (x <? 2147483648) with false by (symmetry; apply Z.ltb_ge; lia).
  replace (x - 4294967296 <? 0) with true by (symmetry; apply Z.ltb_lt; lia).
  rewrite Z.mod_small by lia.
  replace (- (x - 4294967296)) with (4294967296 - x) by lia. reflexivity.
Qed.

(** C6: [util_message_uint8] and [util_message_uint16] print every element
    with [%u], as its unsigned decimal numeral without a leading zero, but
    [util_message_uint32] prints every element with [%d]: an element from
    2^31 up is printed as a negative number, 4294967295 as -1. *)
Theorem uint32_elements_printed_signed (s : stream) (name : option string)
    (data : list Z) :
  emitted s (trace (util_message_uint32 (Some s) name data (List.length data)))
    = (render "U32:%s:" [AStr name]
       ++ join_commas (List.map (fun x => signed_text (wrapu 32 x)) data) ++ CRLF)%string
  /\ emitted s (trace (util_message_uint16 (Some s) name data (List.length data)))
    = (render "U16:%s:" [AStr name]
       ++ join_commas (List.map (fun x => unsigned_text (wrapu 16 x) 10) data)
       ++ CRLF)%string
  /\ emitted s (trace (util_message_uint8 (Some s) name data (List.length data)))
    = (render "U8:%s:" [AStr name]
       ++ join_commas (List.map (fun x => unsigned_text (wrapu 8 x) 10) data)
       ++ CRLF)%string
  /\ (forall x : Z,
        2147483648 <= x < 4294967296 ->
        signed_text (wrapu 32 x) = String "-"%char (ltoa (4294967296 - x) 10))
  /\ (forall n : Z,
        0 <= n < 4294967296 ->
        unsigned_text n 10 = ltoa n 10
        /\ all_digits (ltoa n 10) = true
        /\ decimal_value (ltoa n 10) = n
        /\ (n <> 0 -> forall r, ltoa n 10 <> String "0"%char r))
  /\ util_message_uint32 (Some s) (Some "adc") [4294967295; 2147483648; 7] 3
     = ([SemWait; Put s "U32:adc:"; Put s "-1"; Put s ","; Put s "-2147483648";
         Put s ","; Put s "7"; Put s CRLF; SemSignal], Returned tt)
  /\ util_message_uint16 (Some s) (Some "adc") [65535; 32768; 7] 3
     = ([SemWait; Put s "U16:adc:"; Put s "65535"; Put s ","; Put s "32768";
         Put s ","; Put s "7"; Put s CRLF; SemSignal], Returned tt).
Proof.
  pose proof (int_array_text "U32:%s:" "%d" (wrapu 32) s name data) as [_ H32].
  pose proof (int_array_text "U16:%s:" "%u" (wrapu 16) s name data) as [_ H16].
  pose proof (int_array_text "U8:%s:" "%u" (wrapu 8) s name data) as [_ H8].
  rewrite (map_ext _ _ (fun x => render_signed (wrapu 32 x))) in H32.
  rewrite (map_ext _ _ (fun x => render_unsigned (wrapu 16 x))) in H16.
  rewrite (map_ext _ _ (fun x => render_unsigned (wrapu 8 x))) in H8.
  split; [exact H32|]. split; [exact H16|]. split; [exact H8|].
  split; [exact signed_text_high|].
  split; [|split; reflexivity].
  intros n Hn. split; [|apply ltoa_decimal, Hn].
  unfold unsigned_text, wrapu. rewrite Z.mod_small by (change (2 ^ 32) with 4294967296; lia).
  reflexivity.
Qed.

End IntegerArrays.

(** ** gpio.c: the string tables (C2) *)

Section StringTables.

Import Gpio.

Context {defs : FetchDefs}.

Lemma uchar_inj (a b : ascii) : uchar a = uchar b -> a = b.
Proof.
  unfold uchar. intros H. apply Nat2Z.inj in H.
  rewrite <- (ascii_nat_embedding a), <- (ascii_nat_embedding b). congruence.
Qed.

Lemma uchar_eqb (a b : ascii) : (uchar a =? uchar b) = true <-> a = b.
Proof.
  rewrite Z.eqb_eq. split; [apply uchar_inj | congruence].
Qed.

Lemma uchar_zero (a : ascii) : uchar a = 0 <-> a = NUL.
Proof.
  split; [|intros ->; reflexivity].
  intros H. apply uchar_inj. rewrite H. reflexivity.
Qed.

Lemma tolower_nul (c : ascii) : tolower c = NUL -> c = NUL.
Proof.
  destruct c as [[|] [|] [|] [|] [|] [|] [|] [|]]; cbv; intros H;
    solve [reflexivity | discriminate H].
Qed.

Lemma casefold_length (s : string) : String.length (casefold s) = String.length s.
Proof. induction s; cbn; congruence. Qed.

Lemma take_all (n : nat) (s : string) : (String.length s <= n)%nat -> take n s = s.
Proof.
  revert n. induction s as [|c s IH]; intros [|n] H; cbn in *; try reflexivity; try lia.
  rewrite IH by lia. reflexivity.
Qed.

Lemma take_length (n : nat) (s : string) :
  String.length (take n s) = Nat.min n (String.length s).
Proof.
  revert n. induction s as [|c s IH]; intros [|n]; cbn; try reflexivity.
  rewrite IH. reflexivity.
Qed.

(** [strncasecmp] answers zero exactly when the first [n] characters of the
    two strings agree when case is ignored. *)
Lemma strncasecmp_zero (a b : string) (n : nat) :
  cstring a -> cstring b ->
  (strncasecmp a b n = 0 <-> casefold (take n a) = casefold (take n b)).
Proof.
  revert a b. induction n as [|n IH]; intros a b Ha Hb.
  - destruct a, b; cbn; tauto.
  - destruct a as [|c a], b as [|d b]; cbn [strncasecmp take casefold].
    + tauto.
    + destruct Hb as [Hd _]. split; [|discriminate].
      intros H. exfalso. apply Hd, tolower_nul, uchar_zero. lia.
    + destruct Ha as [Hc _]. split; [|discriminate].
      intros H. exfalso. apply Hc, tolower_nul, uchar_zero. exact H.
    + destruct Ha as [_ Ha], Hb as [_ Hb].
      destruct (uchar (tolower c) =? uchar (tolower d)) eqn:E.
      * apply uchar_eqb in E. rewrite E, (IH a b Ha Hb).
        split; [congruence | intros [= H]; exact H].
      * split.
        -- intros H. apply Z.eqb_neq in E. lia.
        -- intros [= H _]. rewrite H, Z.eqb_refl in E. discriminate.
Qed.

(** With a cap above the length of the table entry, the comparison of
    [string_to_pinnum] and [string_to_gpioport] is equality ignoring case. *)
Lemma entry_match (entry s : string) :
  cstring entry -> cstring s -> (strlen entry < MAX_PIN_STR_LEN)%nat ->
  (strncasecmp entry s (get_longest_str_length entry s MAX_PIN_STR_LEN) =? 0) = true
  <-> casefold s = casefold entry.
Proof.
  intros He Hs Hlen. rewrite Z.eqb_eq, (strncasecmp_zero _ _ _ He Hs).
  unfold get_longest_str_length, strlen in *.
  set (n := Nat.min (Nat.max (String.length entry) (String.length s)) MAX_PIN_STR_LEN).
  rewrite (take_all n entry) by (subst n; lia).
  split; intros H.
  - assert (Hl : String.length (casefold entry) = String.length (casefold (take n s)))
      by congruence.
    rewrite !casefold_length, take_length in Hl.
    rewrite (take_all n s) in H by (subst n; lia). congruence.
  - assert (Hl : String.length (casefold s) = String.length (casefold entry))
      by congruence.
    rewrite !casefold_length in Hl.
    rewrite (take_all n s) by (subst n; lia). congruence.
Qed.

Lemma scan_map_range {A : Type} (table : list (string * A)) (none : A) (s : string)
    (v : A) :
  scan_map table none (Some s) = ret v -> v = none \/ In v (List.map snd table).
Proof.
  induction table as [|[entry value] table IH]; cbn [scan_map List.map snd].
  - intros [= <-]. auto.
  - destruct (strncasecmp entry s _ =? 0).
    + intros [= <-]. right. left. reflexivity.
    + intros H. destruct (IH H); auto. right. right. assumption.
Qed.

Lemma scan_map_exact {A : Type} (table : list (string * A)) (none : A) (s : string) :
  (forall e, In e table -> cstring (fst e) /\ (strlen (fst e) < MAX_PIN_STR_LEN)%nat) ->
  NoDup (List.map (fun e => casefold (fst e)) table) ->
  NoDup (List.map snd table) ->
  ~ In none (List.map snd table) ->
  cstring s ->
  (forall name v, In (name, v) table ->
     (scan_map table none (Some s) = ret v <-> casefold s = casefold name))
  /\ (scan_map table none (Some s) = ret none
      <-> forall name v, In (name, v) table -> casefold s <> casefold name).
Proof.
  intros Hwf Hnames Hvalues Hnone Hs.
  induction table as [|[entry value] table IH].
  - split; [intros name v []|]. cbn. split; [intros _ name v []|reflexivity].
  - cbn [List.map fst snd] in *.
    apply NoDup_cons_iff in Hnames. destruct Hnames as [Hname Hnames].
    apply NoDup_cons_iff in Hvalues. destruct Hvalues as [Hvalue Hvalues].
    destruct (Hwf (entry, value) (or_introl eq_refl)) as [He Hlen]. cbn [fst] in He, Hlen.
    specialize (IH (fun e H => Hwf e (or_intror H)) Hnames Hvalues
                  (fun H => Hnone (or_intror H))).
    destruct IH as [IHin IHnone].
    pose proof (entry_match entry s He Hs Hlen) as Hm.
    cbn [scan_map].
    destruct (strncasecmp entry s _ =? 0) eqn:E.
    + assert (Heq : casefold s = casefold entry) by (apply Hm; reflexivity).
      split.
      * intros name v [[= <- <-] | Hin].
        -- tauto.
        -- split.
           ++ intros [= <-]. exfalso. apply Hvalue.
              apply (in_map snd) in Hin. exact Hin.
           ++ intros H. exfalso. apply Hname. rewrite <- Heq, H.
              apply (in_map (fun e => casefold (fst e))) in Hin. exact Hin.
      * split.
        -- intros [= <-]. exfalso. apply Hnone. left. reflexivity.
        -- intros H. exfalso. apply (H entry value); [left; reflexivity | exact Heq].
    + assert (Hneq : casefold s <> casefold entry).
      { intros H. apply Hm in H. discriminate. }
      split.
      * intros name v [[= <- <-] | Hin].
        -- split; [|tauto]. intros H. exfalso.
           destruct (scan_map_range _ _ _ _ H) as [-> | Hv].
           ++ apply Hnone. left. reflexivity.
           ++ apply Hvalue, Hv.
        -- apply IHin, Hin.
      * rewrite IHnone. split.
        -- intros H name v [[= <- <-] | Hin]; [exact Hneq | apply (H name v Hin)].
        -- intros H name v Hin. apply (H name v). right. exact Hin.
Qed.

Ltac distinct := repeat constructor; cbn; intuition discriminate.

Lemma pinmap_names : NoDup (List.map (fun e => casefold (fst e)) gpio_pinmap).
Proof. distinct. Qed.

Lemma pinmap_values : NoDup (List.map snd gpio_pinmap).
Proof. distinct. Qed.

Lemma portmap_names : NoDup (List.map (fun e => casefold (fst e)) gpio_portmap).
Proof. distinct. Qed.

Lemma portmap_values : NoDup (List.map snd gpio_portmap).
Proof. distinct. Qed.

Lemma append_same (a r : string) : a = (a ++ r)%string -> r = "".
Proof.
  induction a as [|c a IH]; cbn; [congruence|].
  intros [= H]. auto.
Qed.

Lemma pinmap_entries (e : string * GPIO_pinnum) :
  (5 < MAX_PIN_STR_LEN)%nat -> In e gpio_pinmap ->
  cstring (fst e) /\ (strlen (fst e) < MAX_PIN_STR_LEN)%nat.
Proof.
  intros Hmax Hin. cbn in Hin.
  repeat (destruct Hin as [<- | Hin]; [split; [cbv; intuition discriminate | cbn; lia]|]).
  destruct Hin.
Qed.

Lemma portmap_entries (e : string * option GPIO_port) :
  (5 < MAX_PIN_STR_LEN)%nat ->
  In e (List.map (fun e => (fst e, Some (snd e))) gpio_portmap) ->
  cstring (fst e) /\ (strlen (fst e) < MAX_PIN_STR_LEN)%nat.
Proof.
  intros Hmax Hin. cbn in Hin.
  repeat (destruct Hin as [<- | Hin]; [split; [cbv; intuition discriminate | cbn; lia]|]).
  destruct Hin.
Qed.

Lemma pinnum_exact (chp : option stream) (s : string) :
  (5 < MAX_PIN_STR_LEN)%nat -> cstring s ->
  (forall name pin, In (name, pin) gpio_pinmap ->
     (string_to_pinnum chp (Some s) = ret pin <-> casefold s = casefold name))
  /\ (string_to_pinnum chp (Some s) = ret NO_GPIO_PIN
      <-> forall name pin, In (name, pin) gpio_pinmap -> casefold s <> casefold name).
Proof.
  intros Hmax Hs. unfold string_to_pinnum.
  apply scan_map_exact; auto using pinmap_entries, pinmap_names, pinmap_values.
  cbn. intuition discriminate.
Qed.

Lemma gpioport_exact (chp : option stream) (s : string) :
  (5 < MAX_PIN_STR_LEN)%nat -> cstring s ->
  (forall name port, In (name, port) gpio_portmap ->
     (string_to_gpioport chp (Some s) = ret (Some port) <-> casefold s = casefold name))
  /\ (string_to_gpioport chp (Some s) = ret None
      <-> forall name port, In (name, port) gpio_portmap -> casefold s <> casefold name).
Proof.
  intros Hmax Hs. unfold string_to_gpioport.
  set (table := List.map (fun e => (fst e, Some (snd e))) gpio_portmap).
  destruct (scan_map_exact table None s) as [Hin Hnone];
    auto using portmap_entries.
  - apply portmap_names.
  - cbn. distinct.
  - cbn. intuition discriminate.
  - split.
    + intros name port H. apply Hin.
      apply (in_map (fun e => (fst e, Some (snd e)))) in H. exact H.
    + rewrite Hnone. split.
      * intros H name port Hp. apply (H name (Some port)).
        apply (in_map (fun e => (fst e, Some (snd e)))) in Hp. exact Hp.
      * intros H name v Hv. apply in_map_iff in Hv.
        destruct Hv as ([name' port] & [= <- <-] & Hp). apply (H name' port Hp).
Qed.


End StringTables.


(** The cap matters: with a cap of 5 characters text after [pin10] is not
    compared, and with a cap of 4 [pin10] is taken for [pin1]. *)
Example short_cap_accepts_more :
  Gpio.string_to_pinnum (defs := Gpio.board_with_cap 5) None (Some "pin10x") = ret PIN10
  /\ Gpio.string_to_pinnum (defs := Gpio.board_with_cap 4) None (Some "pin10") = ret PIN1
  /\ Gpio.string_to_pinnum (defs := Gpio.board_defs) None (Some "pin10x") = ret NO_GPIO_PIN
  /\ Gpio.string_to_pinnum (defs := Gpio.board_defs) None (Some "Pin10") = ret PIN10
  /\ Gpio.string_to_gpioport (defs := Gpio.board_defs) None (Some "PORTI") = ret (Some GPIOI).
Proof. repeat split; reflexivity. Qed.

(** ** gpio.c: unresolved port and pin tokens (C1) *)

Section Unresolved.

Import UtilMessages Gpio.

Context {defs : FetchDefs}.

(** [token_match] is a string function: it drives no pad. *)
Hypothesis token_match_no_pad :
  forall chp terms tok n, no_pad_ops (trace (token_match chp terms tok n)).

Lemma no_pad_ops_app (t1 t2 : list event) :
  no_pad_ops t1 -> no_pad_ops t2 -> no_pad_ops (t1 ++ t2).
Proof. unfold no_pad_ops. intros H1 H2. rewrite forallb_app, H1, H2. reflexivity. Qed.

Lemma no_pad_ops_bind {A B : Type} (m : M A) (k : A -> M B) :
  no_pad_ops (trace m) -> (forall a, no_pad_ops (trace (k a))) ->
  no_pad_ops (trace (bind m k)).
Proof.
  intros Hm Hk. rewrite trace_bind. destruct (result m); [|assumption].
  apply no_pad_ops_app; auto.
Qed.

Lemma scan_map_trace {A : Type} (table : list (string * A)) (none : A)
    (str : option string) :
  trace (scan_map table none str) = [].
Proof.
  induction table as [|[entry value] table IH]; cbn [scan_map]; [reflexivity|].
  destruct str as [s|]; [|reflexivity].
  destruct (strncasecmp entry s _ =? 0); [reflexivity|]. exact IH.
Qed.

Lemma strncasecmp_ptr_trace (p : option string) (lit : string) (n : nat) :
  trace (strncasecmp_ptr p lit n) = [].
Proof. destruct p; reflexivity. Qed.

Lemma debug_no_pad (chp : option stream) (line : Z) (func fmt : string)
    (args : list arg) :
  no_pad_ops (trace (DBG_VMSG chp line func fmt args)).
Proof.
  unfold DBG_VMSG, util_message_debug, newline_if_needed.
  destruct chp; [|reflexivity]. cbn [is_null orb].
  destruct (needs_newline (Some fmt)); reflexivity.
Qed.

Lemma gpio_get_port_pin_no_pad (chp : option stream) (cmd_list : list (option string))
    (terms : Fetch_terminals) (port : option GPIO_port) (pin : GPIO_pinnum) :
  no_pad_ops (trace (gpio_get_port_pin chp cmd_list terms port pin)).
Proof.
  unfold gpio_get_port_pin, gpio_is_valid_port_subcommand, gpio_is_valid_pin_subcommand,
    string_to_gpioport, string_to_pinnum.
  apply no_pad_ops_bind; [apply token_match_no_pad|intros v].
  destruct (0 <=? v); [|reflexivity].
  apply no_pad_ops_bind; [rewrite scan_map_trace; reflexivity|intros gpio_port].
  destruct (negb (is_null gpio_port)); [|reflexivity].
  apply no_pad_ops_bind; [apply token_match_no_pad|intros w].
  destruct (0 <=? w); [|reflexivity].
  apply no_pad_ops_bind; [rewrite scan_map_trace; reflexivity|intros gpio_pinnum].
  destruct (negb (is_no_pin gpio_pinnum)); reflexivity.
Qed.

(** Without both tokens resolved, [gpio_get_port_pin] does not answer true. *)
Lemma gpio_get_port_pin_unresolved (chp : option stream)
    (cmd_list : list (option string)) (terms : Fetch_terminals)
    (port : option GPIO_port) (pin : GPIO_pinnum) :
  ~ (port_resolves chp terms (slot cmd_list PORT)
     /\ pin_resolves chp terms (slot cmd_list PIN)) ->
  result (gpio_get_port_pin chp cmd_list terms port pin) = Fault
  \/ exists p q, result (gpio_get_port_pin chp cmd_list terms port pin)
                 = Returned (false, p, q).
Proof.
  intros Hun. unfold gpio_get_port_pin.
  rewrite result_bind.
  destruct (result (gpio_is_valid_port_subcommand chp terms (slot cmd_list PORT)))
    as [v|] eqn:Ev; [|auto].
  destruct (0 <=? v) eqn:Hv; [|right; do 2 eexists; reflexivity].
  rewrite result_bind.
  destruct (result (string_to_gpioport chp (slot cmd_list PORT))) as [gp|] eqn:Egp; [|auto].
  destruct gp as [gp|]; cbn [is_null negb]; [|right; do 2 eexists; reflexivity].
  rewrite result_bind.
  destruct (result (gpio_is_valid_pin_subcommand chp terms (slot cmd_list PIN)))
    as [w|] eqn:Ew; [|auto].
  destruct (0 <=? w) eqn:Hw; [|right; do 2 eexists; reflexivity].
  rewrite result_bind.
  destruct (result (string_to_pinnum chp (slot cmd_list PIN))) as [gpin|] eqn:Egpin; [|auto].
  destruct (is_no_pin gpin) eqn:Hno; cbn [negb]; [right; do 2 eexists; reflexivity|].
  exfalso. apply Hun. split.
  - split; [exists v; split; [assumption | lia] | eauto].
  - split; [exists w; split; [assumption | lia]|].
    exists gpin. split; [assumption|]. intros ->. cbn in Hno. discriminate Hno.
Qed.

Lemma on_pad_false (p : option GPIO_port) (q : GPIO_pinnum)
    (op : GPIO_port -> GPIO_pinnum -> M unit) :
  on_pad (false, p, q) op = ret false.
Proof. reflexivity. Qed.

Lemma quiet_failure_ret : quiet_failure (ret false).
Proof. split; [reflexivity | left; reflexivity]. Qed.

Lemma quiet_failure_bind {A : Type} (m : M A) (k : A -> M bool) :
  no_pad_ops (trace m) -> (forall a, result m = Returned a -> quiet_failure (k a)) ->
  quiet_failure (bind m k).
Proof.
  intros Hm Hk. unfold quiet_failure. rewrite trace_bind, result_bind.
  destruct (result m) as [a|]; [|auto].
  destruct (Hk a eq_refl) as [Ht Hr]. split; [apply no_pad_ops_app|]; assumption.
Qed.

(** The pad stage shared by the handlers fails quietly on unresolved tokens. *)
Lemma pad_stage_unresolved (chp : option stream) (cmd_list : list (option string))
    (terms : Fetch_terminals) (port : option GPIO_port) (pin : GPIO_pinnum)
    (op : GPIO_port -> GPIO_pinnum -> M unit) :
  ~ (port_resolves chp terms (slot cmd_list PORT)
     /\ pin_resolves chp terms (slot cmd_list PIN)) ->
  quiet_failure (found <- gpio_get_port_pin chp cmd_list terms port pin ;; on_pad found op).
Proof.
  intros Hun. apply quiet_failure_bind; [apply gpio_get_port_pin_no_pad|].
  intros found Hfound.
  destruct (gpio_get_port_pin_unresolved chp cmd_list terms port pin Hun)
    as [H | (p & q & H)]; rewrite H in Hfound; [discriminate|].
  injection Hfound as <-. rewrite on_pad_false. apply quiet_failure_ret.
Qed.

Lemma gpio_config_unresolved (chp : option stream) (cmd_list : list (option string))
    (terms : Fetch_terminals) :
  ~ (port_resolves chp terms (slot cmd_list PORT)
     /\ pin_resolves chp terms (slot cmd_list PIN)) ->
  quiet_failure (gpio_config chp terms cmd_list).
Proof.
  intros Hun.
  assert (Hpad : forall direction sense,
             quiet_failure (gpio_config_pad chp terms cmd_list direction sense))
    by (intros; apply pad_stage_unresolved, Hun).
  assert (Hsense : forall direction,
             quiet_failure (gpio_config_sense chp terms cmd_list direction)).
  { intros direction. unfold gpio_config_sense, gpio_is_valid_gpio_sense.
    apply quiet_failure_bind; [apply token_match_no_pad|intros v _].
    destruct (0 <=? v); [|apply quiet_failure_ret].
    repeat (apply quiet_failure_bind;
            [rewrite strncasecmp_ptr_trace; reflexivity|intros ? _];
            match goal with |- quiet_failure (if ?b then _ else _) => destruct b end;
            [apply Hpad|]).
    apply quiet_failure_ret. }
  unfold gpio_config, gpio_is_valid_gpio_direction.
  apply quiet_failure_bind; [apply token_match_no_pad|intros v _].
  destruct (0 <=? v); [|apply quiet_failure_ret].
  repeat (apply quiet_failure_bind;
          [rewrite strncasecmp_ptr_trace; reflexivity|intros ? _];
          match goal with |- quiet_failure (if ?b then _ else _) => destruct b end;
          [apply Hsense|]).
  apply quiet_failure_bind; [apply debug_no_pad|intros _ _].
  apply quiet_failure_ret.
Qed.

Lemma gpio_dispatch_unresolved (chp : option stream)
    (cmd_list data_list : list (option string)) (terms : Fetch_terminals) :
  ~ (port_resolves chp terms (slot cmd_list PORT)
     /\ pin_resolves chp terms (slot cmd_list PIN)) ->
  quiet_failure (gpio_dispatch chp cmd_list data_list terms).
Proof.
  intros Hun. unfold gpio_dispatch, gpio_is_valid_gpio_subcommandA.
  apply quiet_failure_bind; [apply token_match_no_pad|intros v _].
  destruct (0 <=? v); [|apply quiet_failure_ret].
  apply quiet_failure_bind; [rewrite strncasecmp_ptr_trace; reflexivity|intros c1 _].
  destruct (c1 =? 0); [apply pad_stage_unresolved, Hun|].
  apply quiet_failure_bind; [rewrite strncasecmp_ptr_trace; reflexivity|intros c2 _].
  destruct (c2 =? 0); [apply pad_stage_unresolved, Hun|].
  apply quiet_failure_bind; [rewrite strncasecmp_ptr_trace; reflexivity|intros c3 _].
  destruct (c3 =? 0); [apply pad_stage_unresolved, Hun|].
  apply quiet_failure_bind; [rewrite strncasecmp_ptr_trace; reflexivity|intros c4 _].
  destruct (c4 =? 0).
  - destruct (negb (is_null (slot cmd_list DIRECTION))
              && negb (is_null (slot cmd_list SENSE)));
      [apply gpio_config_unresolved, Hun | apply quiet_failure_ret].
  - apply quiet_failure_bind; [apply debug_no_pad|intros _ _].
    apply quiet_failure_ret.
Qed.

(** With the tokens present and a [token_match] that returns on every present
    token, no pointer is NULL where it is used and the calls return. *)
Lemma no_fault_ret {A : Type} (a : A) : no_fault (ret a).
Proof. discriminate. Qed.

Lemma no_fault_bind {A B : Type} (m : M A) (k : A -> M B) :
  no_fault m -> (forall a, result m = Returned a -> no_fault (k a)) ->
  no_fault (bind m k).
Proof.
  unfold no_fault. intros Hm Hk. rewrite result_bind.
  destruct (result m) as [a|] eqn:E; [apply Hk; reflexivity | congruence].
Qed.

Lemma scan_map_no_fault {A : Type} (table : list (string * A)) (none : A) (s : string) :
  no_fault (scan_map table none (Some s)).
Proof.
  induction table as [|[entry value] table IH]; cbn [scan_map]; [discriminate|].
  destruct (strncasecmp entry s _ =? 0); [discriminate | exact IH].
Qed.

Lemma debug_no_fault (chp : option stream) (line : Z) (func fmt : string)
    (args : list arg) :
  no_fault (DBG_VMSG chp line func fmt args).
Proof.
  unfold DBG_VMSG, util_message_debug, newline_if_needed.
  destruct chp; [|discriminate]. cbn [is_null orb].
  destruct (needs_newline (Some fmt)); discriminate.
Qed.

Section Present.

Hypothesis token_match_returns :
  forall chp terms s n, result (token_match chp terms (Some s) n) <> Fault.

Variables (chp : option stream) (cmd_list : list (option string))
  (terms : Fetch_terminals).

Hypothesis unresolved :
  ~ (port_resolves chp terms (slot cmd_list PORT)
     /\ pin_resolves chp terms (slot cmd_list PIN)).

Hypothesis port_present : slot cmd_list PORT <> None.

Hypothesis pin_present : slot cmd_list PIN <> None.

Lemma gpio_get_port_pin_no_fault (port : option GPIO_port) (pin : GPIO_pinnum) :
  no_fault (gpio_get_port_pin chp cmd_list terms port pin).
Proof.
  unfold gpio_get_port_pin, gpio_is_valid_port_subcommand, gpio_is_valid_pin_subcommand,
    string_to_gpioport, string_to_pinnum.
  destruct (slot cmd_list PORT) as [sp|] eqn:Ep; [|congruence].
  destruct (slot cmd_list PIN) as [sq|] eqn:Eq; [|congruence].
  apply no_fault_bind; [apply token_match_returns|intros v _].
  destruct (0 <=? v); [|apply no_fault_ret].
  apply no_fault_bind; [apply scan_map_no_fault|intros gp _].
  destruct (negb (is_null gp)); [|apply no_fault_ret].
  apply no_fault_bind; [apply token_match_returns|intros w _].
  destruct (0 <=? w); [|apply no_fault_ret].
  apply no_fault_bind; [apply scan_map_no_fault|intros gpin _].
  destruct (negb (is_no_pin gpin)); apply no_fault_ret.
Qed.

Lemma pad_stage_no_fault (port : option GPIO_port) (pin : GPIO_pinnum)
    (op : GPIO_port -> GPIO_pinnum -> M unit) :
  no_fault (found <- gpio_get_port_pin chp cmd_list terms port pin ;; on_pad found op).
Proof.
  apply no_fault_bind; [apply gpio_get_port_pin_no_fault|].
  intros found Hfound.
  destruct (gpio_get_port_pin_unresolved chp cmd_list terms port pin unresolved)
    as [H | (p & q & H)]; rewrite H in Hfound; [discriminate|].
  injection Hfound as <-. rewrite on_pad_false. apply no_fault_ret.
Qed.

Lemma gpio_config_no_fault :
  slot cmd_list DIRECTION <> None -> slot cmd_list SENSE <> None ->
  no_fault (gpio_config chp terms cmd_list).
Proof.
  intros Hd Hs.
  assert (Hpad : forall direction sense,
             no_fault (gpio_config_pad chp terms cmd_list direction sense))
    by (intros; apply pad_stage_no_fault).
  assert (Hsense : forall direction,
             no_fault (gpio_config_sense chp terms cmd_list direction)).
  { intros direction. unfold gpio_config_sense, gpio_is_valid_gpio_sense.
    destruct (slot cmd_list SENSE) as [ss|] eqn:Es; [|congruence].
    apply no_fault_bind; [apply token_match_returns|intros v _].
    destruct (0 <=? v); [|apply no_fault_ret].
    repeat (apply no_fault_bind; [discriminate|intros ? _];
            match goal with |- no_fault (if ?b then _ else _) => destruct b end;
            [apply Hpad|]).
    apply no_fault_ret. }
  unfold gpio_config, gpio_is_valid_gpio_direction.
  destruct (slot cmd_list DIRECTION) as [sd|] eqn:Ed; [|congruence].
  apply no_fault_bind; [apply token_match_returns|intros v _].
  destruct (0 <=? v); [|apply no_fault_ret].
  repeat (apply no_fault_bind; [discriminate|intros ? _];
          match goal with |- no_fault (if ?b then _ else _) => destruct b end;
          [apply Hsense|]).
  apply no_fault_bind; [apply debug_no_fault|intros _ _].
  apply no_fault_ret.
Qed.

Lemma gpio_dispatch_no_fault (data_list : list (option string)) :
  slot cmd_list ACTION <> None ->
  no_fault (gpio_dispatch chp cmd_list data_list terms).
Proof.
  intros Ha. unfold gpio_dispatch, gpio_is_valid_gpio_subcommandA.
  destruct (slot cmd_list ACTION) as [sa|] eqn:Ea; [|congruence].
  apply no_fault_bind; [apply token_match_returns|intros v _].
  destruct (0 <=? v); [|apply no_fault_ret].
  apply no_fault_bind; [discriminate|intros c1 _].
  destruct (c1 =? 0); [apply pad_stage_no_fault|].
  apply no_fault_bind; [discriminate|intros c2 _].
  destruct (c2 =? 0); [apply pad_stage_no_fault|].
  apply no_fault_bind; [discriminate|intros c3 _].
  destruct (c3 =? 0); [apply pad_stage_no_fault|].
  apply no_fault_bind; [discriminate|intros c4 _].
  destruct (c4 =? 0).
  - destruct (slot cmd_list DIRECTION) as [sd|] eqn:Ed; [|apply no_fault_ret].
    destruct (slot cmd_list SENSE) as [ss|] eqn:Es; [|apply no_fault_ret].
    cbn [is_null negb andb]. apply gpio_config_no_fault; congruence.
  - apply no_fault_bind; [apply debug_no_fault|intros _ _].
    apply no_fault_ret.
Qed.

End Present.

Lemma quiet_failure_returned (m : M bool) :
  quiet_failure m -> no_fault m -> result m = Returned false.
Proof. intros [_ [H | H]] Hn; [exact H | contradiction]. Qed.

(** With an unresolved token the pad stage is the resolution and nothing
    else: the guarded operation after it is never entered. *)
Lemma bind_on_result {A B : Type} (m : M A) (k k' : A -> M B) :
  (forall a, result m = Returned a -> k a = k' a) -> bind m k = bind m k'.
Proof.
  destruct m as [t [a|]]; intros H; [|reflexivity].
  unfold bind. rewrite (H a eq_refl). reflexivity.
Qed.

Lemma pad_stage_stops (chp : option stream) (cmd_list : list (option string))
    (terms : Fetch_terminals) (port : option GPIO_port) (pin : GPIO_pinnum)
    (op : GPIO_port -> GPIO_pinnum -> M unit) :
  ~ (port_resolves chp terms (slot cmd_list PORT)
     /\ pin_resolves chp terms (slot cmd_list PIN)) ->
  (found <- gpio_get_port_pin chp cmd_list terms port pin ;; on_pad found op)
  = (gpio_get_port_pin chp cmd_list terms port pin ;; ret false).
Proof.
  intros Hun. apply bind_on_result. intros found Hfound.
  destruct (gpio_get_port_pin_unresolved chp cmd_list terms port pin Hun)
    as [H | (p & q & H)]; rewrite H in Hfound; [discriminate|].
  injection Hfound as <-. apply on_pad_false.
Qed.

(** An unresolved port token ends the resolution: the pin token is not
    looked at. *)
Lemma port_unresolved_trace (chp : option stream) (cmd_list : list (option string))
    (terms : Fetch_terminals) (port : option GPIO_port) (pin : GPIO_pinnum) :
  ~ port_resolves chp terms (slot cmd_list PORT) ->
  trace (gpio_get_port_pin chp cmd_list terms port pin)
  = trace (gpio_is_valid_port_subcommand chp terms (slot cmd_list PORT)).
Proof.
  intros Hun. unfold gpio_get_port_pin. rewrite trace_bind.
  destruct (result (gpio_is_valid_port_subcommand chp terms (slot cmd_list PORT)))
    as [v|] eqn:Ev; [|reflexivity].
  destruct (0 <=? v) eqn:Hv; [|apply app_nil_r].
  assert (Hscan : trace (string_to_gpioport chp (slot cmd_list PORT)) = [])
    by apply scan_map_trace.
  rewrite trace_bind, Hscan.
  destruct (result (string_to_gpioport chp (slot cmd_list PORT))) as [gp|] eqn:Egp;
    [|apply app_nil_r].
  destruct gp as [gp|]; [|apply app_nil_r].
  exfalso. apply Hun. split; [exists v; split; [assumption | lia] | eauto].
Qed.


End Unresolved.

(** On the sample platform: a resolved command drives the pad, and the
    theorem applies to a command whose port token names no port. *)
Example gpio_set_porta_pin3 :
  Gpio.gpio_dispatch (defs := Gpio.board_defs) (Some 0%nat)
    [Some "gpio"; Some "set"; Some "porta"; Some "pin3"] [] Gpio.board_terms
  = ([PalSetPad GPIOA PIN3], Returned true).
Proof. reflexivity. Qed.

(** A command without its pin token: the modelled [token_match] stops on the
    NULL token, before any pad operation. *)
Example gpio_set_missing_pin :
  Gpio.gpio_dispatch (defs := Gpio.board_defs) (Some 0%nat)
    [Some "gpio"; Some "set"; Some "porta"] [] Gpio.board_terms
  = ([], Fault)
  /\ Gpio.gpio_dispatch (defs := Gpio.board_defs) (Some 0%nat)
       [Some "gpio"; Some "get"; Some "portb"; Some "pin"] [] Gpio.board_terms
     = ([], Returned false)
  /\ Gpio.gpio_dispatch (defs := Gpio.board_defs) (Some 0%nat)
       [Some "gpio"; Some "config"; Some "portj"; Some "pin2"; Some "output";
        Some "pullup"] [] Gpio.board_terms
     = ([], Returned false).
Proof. repeat split; reflexivity. Qed.

Lemma token_match_spec_no_pad (max_len : nat) (chp : option stream)
    (terms : list string) (tok : option string) (n : Z) :
  no_pad_ops (trace (Gpio.token_match_spec max_len chp terms tok n)).
Proof. destruct tok; reflexivity. Qed.



(** ** fetch_dac.c: the write command (C4, C5) *)

Section DacWrite.

Import UtilMessages FetchDac.

Context {defs : DacDefs}.

Lemma invalid_channel_line (s : stream) :
  util_message_error (Some s) (Some "invalid channel") []
  = (error_line s "invalid channel", Returned tt).
Proof. reflexivity. Qed.

Lemma invalid_value_line (s : stream) :
  util_message_error (Some s) (Some "invalid value") []
  = (error_line s "invalid value", Returned tt).
Proof. reflexivity. Qed.

(** [endptr] is a suffix of the argument: what [strtol] did not read. *)
Lemma skip_space_suffix (s : string) : exists p, s = (p ++ skip_space s)%string.
Proof.
  induction s as [|c s [p IH]]; [exists ""; reflexivity|].
  cbn [skip_space]. destruct (isspace c).
  - exists (String c p). cbn. congruence.
  - exists "". reflexivity.
Qed.

Lemma digits_suffix (base : Z) (s : string) :
  forall acc any, exists p, s = (p ++ snd (digits base s acc any))%string.
Proof.
  induction s as [|c s IH]; intros acc any; [exists ""; reflexivity|].
  cbn [digits]. destruct (digit_of c) as [d|]; [|exists ""; reflexivity].
  destruct (d <? base); [|exists ""; reflexivity].
  destruct (IH (acc * base + d) true) as [p Hp].
  exists (String c p). cbn. congruence.
Qed.

Lemma strtol_sign_suffix (s : string) : exists p, s = (p ++ snd (strtol_sign s))%string.
Proof.
  destruct s as [|c r]; [exists ""; reflexivity|].
  destruct (Ascii.eqb c "-"%char) eqn:Em.
  { apply Ascii.eqb_eq in Em. subst c. exists (String "-"%char ""). reflexivity. }
  destruct (Ascii.eqb c "+"%char) eqn:Ep.
  { apply Ascii.eqb_eq in Ep. subst c. exists (String "+"%char ""). reflexivity. }
  exists "". destruct c as [[|] [|] [|] [|] [|] [|] [|] [|]]; try reflexivity; discriminate.
Qed.

Lemma strtol_base_suffix (s : string) : exists p, s = (p ++ snd (strtol_base s))%string.
Proof.
  destruct s as [|c s]; [exists ""; reflexivity|].
  destruct (Ascii.eqb c "0"%char) eqn:Ec.
  - apply Ascii.eqb_eq in Ec. subst c.
    destruct s as [|x r]; [exists ""; reflexivity|].
    cbn [strtol_base].
    destruct ((Ascii.eqb x "x"%char || Ascii.eqb x "X"%char) && is_hex_digit r).
    + exists (String "0"%char (String x "")). reflexivity.
    + exists "". reflexivity.
  - exists "". destruct c as [[|] [|] [|] [|] [|] [|] [|] [|]]; try reflexivity.
    discriminate Ec.
Qed.

Lemma strtol_suffix (nptr : string) : exists p, nptr = (p ++ snd (strtol nptr))%string.
Proof.
  unfold strtol.
  destruct (skip_space_suffix nptr) as [p1 H1].
  destruct (strtol_sign_suffix (skip_space nptr)) as [p2 H2].
  destruct (strtol_sign (skip_space nptr)) as [neg s2]. cbn [snd] in H2.
  destruct (strtol_base_suffix s2) as [p3 H3].
  destruct (strtol_base s2) as [base s3]. cbn [snd] in H3.
  destruct (digits_suffix base s3 0 false) as [p4 H4].
  destruct (digits base s3 0 false) as [[acc any] rest]. cbn [snd] in H4.
  destruct any; [|exists ""; reflexivity].
  exists (p1 ++ p2 ++ p3 ++ p4)%string. cbn [snd].
  rewrite !string_app_assoc, <- H4, <- H3, <- H2. exact H1.
Qed.

Lemma not_at_end_cstring (endptr : string) :
  cstring endptr -> (not_at_end endptr = true <-> endptr <> "").
Proof.
  destruct endptr as [|c r]; cbn; [intros _; split; [discriminate | congruence]|].
  intros [Hc _]. split; [discriminate|]. intros _.
  unfold not_at_end, char_at. cbn.
  destruct (Ascii.eqb c NUL) eqn:E; [|reflexivity].
  apply Ascii.eqb_eq in E. contradiction.
Qed.

Lemma cstring_suffix (p r : string) : cstring (p ++ r) -> cstring r.
Proof. induction p as [|c p IH]; cbn; [auto | intros [_ H]; auto]. Qed.

(** What [fetch_dac_write_cmd] does once [fetch_input_check] has accepted the
    command with trace [t0]: the rest of the trace and the result, by the
    outcome of the two conversions. *)
Lemma write_cmd_after_check (chp : option stream)
    (cmd_list data_list : list (option string)) (t0 : list event) (body : M bool) :
  fetch_input_check chp cmd_list FETCH_TOK_SUBCMD_0 data_list 2 = (t0, Returned true) ->
  (r0 <- strtol_ptr (slot data_list 0) ;;
   let '(channel, endptr) := r0 in
   if not_at_end endptr then
     util_message_error chp (Some "invalid channel") [] ;;
     ret false
   else
     r1 <- strtol_ptr (slot data_list 1) ;;
     let '(value, endptr) := r1 in
     if not_at_end endptr then
       util_message_error chp (Some "invalid value") [] ;;
       ret false
     else if (channel =? 0) || (channel =? 1) || (channel =? 2) || (channel =? 3)
     then external_dac_write channel value
     else if channel =? 4 then
       emit (DacPutChannelX 0 value) ;;
       ret true
     else
       util_message_error chp (Some "invalid channel") [] ;;
       ret false) = body ->
  fetch_dac_write_cmd chp cmd_list data_list = (t0 ++ trace body, result body).
Proof.
  intros Hcheck <-. unfold fetch_dac_write_cmd.
  rewrite (bind_returned _ _ _ _ Hcheck). reflexivity.
Qed.

(** C5: once the argument count is accepted, an argument whose conversion by
    [strtol] stops before the end of the string makes [fetch_dac_write_cmd]
    emit [E:invalid channel] (first argument) or [E:invalid value] (second
    argument) and return false; the trace holds nothing else after the
    argument check, so no DAC or SPI operation.  [strtol] leaves a suffix of
    the argument, and stopping before the end means that suffix is not empty. *)
Theorem trailing_characters_rejected (s : stream)
    (cmd_list data_list : list (option string)) (t0 : list event)
    (channel_text : string) :
  fetch_input_check (Some s) cmd_list FETCH_TOK_SUBCMD_0 data_list 2
    = (t0, Returned true) ->
  slot data_list 0 = Some channel_text ->
  (not_at_end (snd (strtol channel_text)) = true ->
   fetch_dac_write_cmd (Some s) cmd_list data_list
   = (t0 ++ error_line s "invalid channel", Returned false))
  /\ (forall value_text : string,
        not_at_end (snd (strtol channel_text)) = false ->
        slot data_list 1 = Some value_text ->
        not_at_end (snd (strtol value_text)) = true ->
        fetch_dac_write_cmd (Some s) cmd_list data_list
        = (t0 ++ error_line s "invalid value", Returned false))
  /\ forallb (fun e => negb (is_dac_op e))
       (error_line s "invalid channel" ++ error_line s "invalid value") = true
  /\ (forall a : string, exists p, a = (p ++ snd (strtol a))%string)
  /\ (forall a : string,
        cstring a -> (not_at_end (snd (strtol a)) = true <-> snd (strtol a) <> "")).
Proof.
  intros Hcheck Hc.
  split; [|split; [|split; [reflexivity|split; [apply strtol_suffix|]]]].
  - intros Hend.
    apply (write_cmd_after_check _ _ _ _
             (error_line s "invalid channel", Returned false) Hcheck).
    rewrite Hc. cbn [strtol_ptr]. rewrite bind_ret.
    destruct (strtol channel_text) as [channel endptr]. cbn [snd] in Hend.
    rewrite Hend, invalid_channel_line. reflexivity.
  - intros value_text Hend0 Hv Hend1.
    apply (write_cmd_after_check _ _ _ _
             (error_line s "invalid value", Returned false) Hcheck).
    rewrite Hc, Hv. cbn [strtol_ptr]. rewrite bind_ret.
    destruct (strtol channel_text) as [channel endptr0]. cbn [snd] in Hend0.
    rewrite Hend0, bind_ret.
    destruct (strtol value_text) as [value endptr1]. cbn [snd] in Hend1.
    rewrite Hend1, invalid_value_line. reflexivity.
  - intros a Ha. apply not_at_end_cstring.
    destruct (strtol_suffix a) as [p Hp]. rewrite Hp in Ha.
    apply (cstring_suffix _ _ Ha).
Qed.

Lemma channel_cases (channel : Z) :
  (channel =? 0) || (channel =? 1) || (channel =? 2) || (channel =? 3)
  = (0 <=? channel) && (channel <=? 3).
Proof.
  destruct (Z.eqb_spec channel 0), (Z.eqb_spec channel 1), (Z.eqb_spec channel 2),
    (Z.eqb_spec channel 3), (Z.leb_spec 0 channel), (Z.leb_spec channel 3);
    cbn; try reflexivity; lia.
Qed.

(** C4: once the argument count is accepted and both arguments are numbers,
    a channel outside 0..4 gives [E:invalid channel] and false, but a value
    above 0xfff on the channels 0..3 gives false with no diagnostic at all;
    the value is narrowed to 16 bits before the test, so a value such as
    65536 is written as 0, and channel 4 takes any value. *)
Theorem value_out_of_range_is_silent (s : stream)
    (cmd_list data_list : list (option string)) (t0 : list event)
    (channel_text value_text : string) (channel value : Z) :
  fetch_input_check (Some s) cmd_list FETCH_TOK_SUBCMD_0 data_list 2
    = (t0, Returned true) ->
  slot data_list 0 = Some channel_text ->
  slot data_list 1 = Some value_text ->
  strtol channel_text = (channel, "") ->
  strtol value_text = (value, "") ->
  (channel < 0 \/ 4 < channel ->
   fetch_dac_write_cmd (Some s) cmd_list data_list
   = (t0 ++ error_line s "invalid channel", Returned false))
  /\ (0 <= channel <= 3 -> 4095 < wrapu 16 value ->
      fetch_dac_write_cmd (Some s) cmd_list data_list = (t0, Returned false))
  /\ (0 <= channel <= 3 -> wrapu 16 value <= 4095 ->
      let word :=
        wrapu 16 (Z.lor (wrapu 16 (Z.lor (wrapu 16 value) (Z.shiftl channel 14)))
                    (Z.shiftl 1 12)) in
      fetch_dac_write_cmd (Some s) cmd_list data_list
      = (t0 ++ [SpiSelect;
                SpiSend [wrapu 8 (Z.shiftr word 8); wrapu 8 (Z.land word 255)];
                SpiUnselect], Returned true))
  /\ (channel = 4 ->
      fetch_dac_write_cmd (Some s) cmd_list data_list
      = (t0 ++ [DacPutChannelX 0 value], Returned true)).
Proof.
  intros Hcheck Hc Hv Hsc Hsv.
  assert (Hbody : forall body : M bool,
             (if (0 <=? channel) && (channel <=? 3)
              then external_dac_write channel value
              else if channel =? 4 then emit (DacPutChannelX 0 value) ;; ret true
                   else util_message_error (Some s) (Some "invalid channel") [] ;;
                        ret false) = body ->
             fetch_dac_write_cmd (Some s) cmd_list data_list
             = (t0 ++ trace body, result body)).
  { intros body <-. apply (write_cmd_after_check _ _ _ _ _ Hcheck).
    rewrite Hc, Hv. cbn [strtol_ptr]. rewrite bind_ret, Hsc.
    change (not_at_end "") with false. cbv iota. rewrite bind_ret, Hsv.
    change (not_at_end "") with false. cbv iota. rewrite channel_cases. reflexivity. }
  assert (Hsmall : 0 <= channel <= 3 -> wrapu 16 channel = channel).
  { intros H. unfold wrapu. apply Z.mod_small. change (2 ^ 16) with 65536. lia. }
  repeat split.
  - intros Hout.
    apply (Hbody (error_line s "invalid channel", Returned false)).
    replace ((0 <=? channel) && (channel <=? 3)) with false
      by (destruct (Z.leb_spec 0 channel), (Z.leb_spec channel 3); cbn; lia).
    replace (channel =? 4) with false by (symmetry; apply Z.eqb_neq; lia).
    rewrite invalid_channel_line. reflexivity.
  - intros Hin Hbig. rewrite <- (app_nil_r t0).
    apply (Hbody ([], Returned false)).
    replace ((0 <=? channel) && (channel <=? 3)) with true
      by (destruct (Z.leb_spec 0 channel), (Z.leb_spec channel 3); cbn; lia).
    unfold external_dac_write. rewrite (Hsmall Hin).
    replace (3 <? channel) with false by (symmetry; apply Z.ltb_ge; lia).
    replace (4095 <? wrapu 16 value) with true by (symmetry; apply Z.ltb_lt; lia).
    reflexivity.
  - intros Hin Hfit word.
    apply (Hbody ([SpiSelect;
                   SpiSend [wrapu 8 (Z.shiftr word 8); wrapu 8 (Z.land word 255)];
                   SpiUnselect], Returned true)).
    replace ((0 <=? channel) && (channel <=? 3)) with true
      by (destruct (Z.leb_spec 0 channel), (Z.leb_spec channel 3); cbn; lia).
    unfold external_dac_write. rewrite (Hsmall Hin).
    replace (3 <? channel) with false by (symmetry; apply Z.ltb_ge; lia).
    replace (4095 <? wrapu 16 value) with false by (symmetry; apply Z.ltb_ge; lia).
    reflexivity.
  - intros ->. apply (Hbody ([DacPutChannelX 0 value], Returned true)). reflexivity.
Qed.

End DacWrite.

(** The two theorems on the sample platform: [dac write 0 4096] fails without
    a word, [dac write 2x 100] is answered with [E:invalid channel]. *)
Lemma value_out_of_range_is_silent_witness :
  FetchDac.fetch_dac_write_cmd (defs := FetchDac.board_defs) (Some 0%nat)
    [Some "dac"; Some "write"] [Some "0"; Some "4096"]
  = ([], Returned false).
Proof.
  apply (@value_out_of_range_is_silent FetchDac.board_defs 0%nat
           [Some "dac"; Some "write"] [Some "0"; Some "4096"] [] "0" "4096" 0 4096
           eq_refl eq_refl eq_refl eq_refl eq_refl);
    [lia | reflexivity].
Defined.

Lemma trailing_characters_rejected_witness :
  FetchDac.fetch_dac_write_cmd (defs := FetchDac.board_defs) (Some 0%nat)
    [Some "dac"; Some "write"] [Some "2x"; Some "100"]
  = (error_line 0%nat "invalid channel", Returned false).
Proof.
  apply (@trailing_characters_rejected FetchDac.board_defs 0%nat
           [Some "dac"; Some "write"] [Some "2x"; Some "100"] [] "2x"
           eq_refl eq_refl).
  reflexivity.
Defined.

Example dac_write_scenarios :
  FetchDac.fetch_dac_write_cmd (defs := FetchDac.board_defs) (Some 0%nat)
    [Some "dac"; Some "write"] [Some "9"; Some "100"]
  = (error_line 0%nat "invalid channel", Returned false)
  /\ FetchDac.fetch_dac_write_cmd (defs := FetchDac.board_defs) (Some 0%nat)
       [Some "dac"; Some "write"] [Some "4"; Some "2048"]
     = ([DacPutChannelX 0 2048], Returned true)
  /\ FetchDac.fetch_dac_write_cmd (defs := FetchDac.board_defs) (Some 0%nat)
       [Some "dac"; Some "write"] [Some "0"; Some "65536"]
     = ([SpiSelect; SpiSend [16; 0]; SpiUnselect], Returned true)
  /\ FetchDac.fetch_dac_write_cmd (defs := FetchDac.board_defs) (Some 0%nat)
       [Some "dac"; Some "write"] [Some "1"; Some "-1"]
     = ([], Returned false).
Proof. repeat split; reflexivity. Qed.

(** ** fetch_dac.c: initialisation (C9) *)

Section DacInit.

Import FetchDac.

Context {defs : DacDefs}.

Lemma init_when_flag_set (st : dac_state) (chp : option stream) :
  dac_init_flag st = true -> fetch_dac_init st chp = ([], Returned st).
Proof. intros H. unfold fetch_dac_init. rewrite H. reflexivity. Qed.

Lemma init_sets_flag (st : dac_state) (chp : option stream) :
  exists t st1,
    fetch_dac_init st chp = (t, Returned st1) /\ dac_init_flag st1 = true.
Proof.
  unfold fetch_dac_init. destruct (dac_init_flag st) eqn:E.
  - exists [], st. auto.
  - eexists _, _. split; reflexivity.
Qed.

Lemma init_times_when_flag_set (n : nat) (st : dac_state) (chp : option stream) :
  dac_init_flag st = true -> init_times n st chp = ([], Returned st).
Proof.
  intros H. induction n as [|n IH]; [reflexivity|].
  cbn [init_times]. rewrite (init_when_flag_set st chp H). unfold bind.
  rewrite IH. reflexivity.
Qed.

(** C9: the first call of [fetch_dac_init] starts the DAC and SPI drivers,
    resets the outputs and sets the flag; a call with the flag set performs
    nothing and leaves the state as it is; so any number of calls from one on
    has the events and the final state of a single call. *)
Theorem fetch_dac_init_idempotent (st : dac_state) (chp chp' : option stream) :
  (exists t st1,
      fetch_dac_init st chp = (t, Returned st1)
      /\ dac_init_flag st1 = true
      /\ fetch_dac_init st1 chp' = ([], Returned st1))
  /\ (forall n : nat, init_times (S n) st chp = fetch_dac_init st chp)
  /\ (dac_init_flag st = false ->
      trace (fetch_dac_init st chp)
      = [DacStart {| dac_init := 0; dac_datamode := DAC_DHRM_12BIT_RIGHT |};
         SpiStart {| end_cb := None; ssport := Some GPIOE;
                     sspad := GPIOE_SPI4_NSS; cr1 := SPI_CR1_CPHA |};
         DacPutChannelX 0 0;
         SpiSelect; SpiSend [16; 0]; SpiUnselect;
         SpiSelect; SpiSend [80; 0]; SpiUnselect;
         SpiSelect; SpiSend [144; 0]; SpiUnselect;
         SpiSelect; SpiSend [208; 0]; SpiUnselect]).
Proof.
  destruct (init_sets_flag st chp) as (t & st1 & Hrun & Hflag).
  split; [|split].
  - exists t, st1. auto using init_when_flag_set.
  - intros n. cbn [init_times]. rewrite Hrun.
    unfold bind. rewrite (init_times_when_flag_set n st1 chp Hflag), app_nil_r.
    reflexivity.
  - intros H. unfold fetch_dac_init. rewrite H. reflexivity.
Qed.

End DacInit.

(** * Further properties of the sources *)

(** ** fetch_dac.c: the external converter *)

Section ExternalDac.

Import FetchDac.

Lemma in_zrange (z : Z) (n : nat) : 0 <= z < Z.of_nat n -> In z (zrange n).
Proof.
  intros H. unfold zrange. apply in_map_iff. exists (Z.to_nat z).
  split; [lia|]. apply in_seq. lia.
Qed.

Lemma frames_decode :
  forallb (fun c => forallb (frame_decodes c) (zrange 4096)) (zrange 4) = true.
Proof. vm_compute. reflexivity. Qed.

Lemma frame_decodes_in_range (channel value : Z) :
  0 <= channel <= 3 -> 0 <= value <= 4095 -> frame_decodes channel value = true.
Proof.
  intros Hc Hv. pose proof frames_decode as H.
  rewrite forallb_forall in H.
  specialize (H channel (in_zrange channel 4 ltac:(lia))).
  rewrite forallb_forall in H.
  apply (H value (in_zrange value 4096 ltac:(lia))).
Qed.

Lemma wrapu_range (bits v : Z) : 0 <= bits -> 0 <= wrapu bits v < 2 ^ bits.
Proof. intros H. unfold wrapu. apply Z.mod_pos_bound. apply Z.pow_pos_nonneg; lia. Qed.

Lemma wrapu_idem (bits v : Z) : 0 <= bits -> wrapu bits (wrapu bits v) = wrapu bits v.
Proof.
  intros H. unfold wrapu. apply Z.mod_mod.
  pose proof (Z.pow_pos_nonneg 2 bits ltac:(lia) H). lia.
Qed.

(** X1: [external_dac_write] looks at its arguments as 16-bit values only: it
    returns true exactly when the channel is at most 3 and the value at most
    0xfff after that narrowing; a rejected call sends nothing on the SPI bus,
    an accepted one is one select, one two-byte send and one unselect. *)
Theorem external_dac_write_accepts (channel value : Z) :
  let ok := (wrapu 16 channel <=? 3) && (wrapu 16 value <=? 4095) in
  result (external_dac_write channel value) = Returned ok
  /\ external_dac_write channel value
     = external_dac_write (wrapu 16 channel) (wrapu 16 value)
  /\ (ok = false -> trace (external_dac_write channel value) = [])
  /\ (ok = true ->
      exists b0 b1,
        trace (external_dac_write channel value)
        = [SpiSelect; SpiSend [b0; b1]; SpiUnselect]).
Proof.
  cbv zeta. unfold external_dac_write. rewrite !wrapu_idem by lia.
  rewrite !Z.leb_antisym.
  destruct (3 <? wrapu 16 channel), (4095 <? wrapu 16 value); cbn [orb negb andb];
    repeat split; try discriminate; try reflexivity; intros _; eexists _, _; reflexivity.
Qed.

(** X2: for a channel and a value in range, the two bytes sent are a
    DAC124S085 frame, most significant byte first, whose channel field is the
    channel, whose operation field is 1 (write and update the output) and
    whose value field is the value. *)
Theorem external_dac_write_frame (channel value : Z) :
  wrapu 16 channel <= 3 -> wrapu 16 value <= 4095 ->
  exists b0 b1,
    external_dac_write channel value
    = ([SpiSelect; SpiSend [b0; b1]; SpiUnselect], Returned true)
    /\ 0 <= b0 < 256 /\ 0 <= b1 < 256
    /\ frame_channel (frame_word b0 b1) = wrapu 16 channel
    /\ frame_op (frame_word b0 b1) = 1
    /\ frame_value (frame_word b0 b1) = wrapu 16 value.
Proof.
  intros Hc Hv.
  pose proof (wrapu_range 16 channel ltac:(lia)) as Hc0.
  pose proof (wrapu_range 16 value ltac:(lia)) as Hv0.
  pose proof (frame_decodes_in_range (wrapu 16 channel) (wrapu 16 value)
                ltac:(lia) ltac:(lia)) as H.
  unfold frame_decodes in H.
  destruct (frame_bytes (wrapu 16 channel) (wrapu 16 value)) as [b0 b1] eqn:E.
  exists b0, b1.
  repeat (apply andb_true_iff in H; destruct H as [H ?]).
  split.
  - unfold external_dac_write.
    replace (3 <? wrapu 16 channel) with false by (symmetry; apply Z.ltb_ge; lia).
    replace (4095 <? wrapu 16 value) with false by (symmetry; apply Z.ltb_ge; lia).
    unfold frame_bytes in E. injection E as <- <-. reflexivity.
  - repeat split; try (apply Z.eqb_eq; assumption); try (apply Z.leb_le; assumption);
      try (apply Z.ltb_lt; assumption).
Qed.

End ExternalDac.

Lemma external_dac_write_frame_witness :
  exists b0 b1,
    FetchDac.external_dac_write 2 2047
    = ([SpiSelect; SpiSend [b0; b1]; SpiUnselect], Returned true)
    /\ 0 <= b0 < 256 /\ 0 <= b1 < 256
    /\ frame_channel (frame_word b0 b1) = wrapu 16 2
    /\ frame_op (frame_word b0 b1) = 1
    /\ frame_value (frame_word b0 b1) = wrapu 16 2047.
Proof.
  apply (external_dac_write_frame 2 2047); vm_compute; discriminate.
Defined.

(** ** fetch_dac.c: the commands *)

Section DacCommands.

Import UtilMessages FetchDac.

Context {defs : DacDefs}.

Lemma fetch_dac_reset_run (chp : option stream) :
  fetch_dac_reset chp = (reset_writes, Returned true).
Proof. reflexivity. Qed.

(** X3: the three DAC commands check the argument count before anything
    else: when [fetch_input_check] answers false, [fetch_dac_write_cmd],
    [fetch_dac_reset_cmd] and [fetch_dac_help_cmd] return false and add
    nothing to the trace of the check; when it accepts, the reset command
    writes 0 to the internal converter and to the four external channels and
    returns true, whatever the stream. *)
Theorem dac_commands_check_arity_first (chp : option stream)
    (cmd_list data_list : list (option string)) (t0 : list event) :
  (fetch_input_check chp cmd_list FETCH_TOK_SUBCMD_0 data_list 2 = (t0, Returned false) ->
   fetch_dac_write_cmd chp cmd_list data_list = (t0, Returned false))
  /\ (fetch_input_check chp cmd_list FETCH_TOK_SUBCMD_0 data_list 0
        = (t0, Returned false) ->
      fetch_dac_reset_cmd chp cmd_list data_list = (t0, Returned false)
      /\ forall table,
           fetch_dac_help_cmd table chp cmd_list data_list = (t0, Returned false))
  /\ (fetch_input_check chp cmd_list FETCH_TOK_SUBCMD_0 data_list 0
        = (t0, Returned true) ->
      fetch_dac_reset_cmd chp cmd_list data_list = (t0 ++ reset_writes, Returned true)).
Proof.
  unfold fetch_dac_write_cmd, fetch_dac_reset_cmd, fetch_dac_help_cmd.
  split; [|split]; intros H; [|split; [|intros table]|];
    rewrite (bind_returned _ _ _ _ H); cbn [negb];
    rewrite ?fetch_dac_reset_run; cbn [ret trace result fst snd];
    rewrite ?app_nil_r; reflexivity.
Qed.

(** X4: [fetch_dac_dispatch] starts the drivers on first use only.  With the
    flag set it performs exactly what [fetch_dispatch] performs on the DAC
    command table; and after any dispatch that returns, the flag is set, so
    the next dispatch starts no driver and resets no output by itself. *)
Theorem fetch_dac_dispatch_starts_once (st : dac_state) (chp : option stream)
    (cmd_list data_list : list (option string)) :
  (dac_init_flag st = true ->
   trace (fetch_dac_dispatch st chp cmd_list data_list)
   = trace (fetch_dispatch chp fetch_dac_commands (slot cmd_list FETCH_TOK_SUBCMD_0)
              cmd_list data_list)
   /\ result (fetch_dac_dispatch st chp cmd_list data_list)
      = match result (fetch_dispatch chp fetch_dac_commands
                        (slot cmd_list FETCH_TOK_SUBCMD_0) cmd_list data_list) with
        | Returned r => Returned (st, r)
        | Fault => Fault
        end)
  /\ trace (fetch_dac_dispatch st chp cmd_list data_list)
     = trace (fetch_dac_init st chp)
       ++ trace (fetch_dispatch chp fetch_dac_commands
                   (slot cmd_list FETCH_TOK_SUBCMD_0) cmd_list data_list)
  /\ (forall t st1 r,
        fetch_dac_dispatch st chp cmd_list data_list = (t, Returned (st1, r)) ->
        dac_init_flag st1 = true
        /\ forall chp' cmd_list' data_list',
             trace (fetch_dac_dispatch st1 chp' cmd_list' data_list')
             = trace (fetch_dispatch chp' fetch_dac_commands
                        (slot cmd_list' FETCH_TOK_SUBCMD_0) cmd_list' data_list')).
Proof.
  assert (Hset : forall st chp cmd_list data_list,
             dac_init_flag st = true ->
             fetch_dac_dispatch st chp cmd_list data_list
             = (r <- fetch_dispatch chp fetch_dac_commands
                       (slot cmd_list FETCH_TOK_SUBCMD_0) cmd_list data_list ;;
                ret (st, r))).
  { intros st0 chp0 c d H. unfold fetch_dac_dispatch, fetch_dac_init.
    rewrite H, bind_ret. reflexivity. }
  assert (Htr : forall (A B : Type) (m : M A) (f : A -> B),
             trace (a <- m ;; ret (f a)) = trace m
             /\ result (a <- m ;; ret (f a))
                = match result m with Returned a => Returned (f a) | Fault => Fault end).
  { intros A B [t [a|]] f; cbn; rewrite ?app_nil_r; auto. }
  split; [|split].
  - intros H. rewrite (Hset _ _ _ _ H). apply (Htr _ _ _ (fun r => (st, r))).
  - destruct (init_sets_flag st chp) as (t & st1 & Hrun & _).
    unfold fetch_dac_dispatch. rewrite trace_bind, Hrun. cbn [result trace fst snd].
    f_equal. apply (Htr _ _ _ (fun r => (st1, r))).
  - intros t st1 r Hrun.
    assert (Hflag : dac_init_flag st1 = true).
    { unfold fetch_dac_dispatch in Hrun.
      destruct (dac_init_flag st) eqn:E.
      - unfold fetch_dac_init in Hrun. rewrite E, bind_ret in Hrun.
        destruct (fetch_dispatch chp fetch_dac_commands _ cmd_list data_list)
          as [t' [r'|]]; cbn in Hrun; [|discriminate].
        injection Hrun as _ <- _. exact E.
      - unfold fetch_dac_init in Hrun. rewrite E in Hrun.
        rewrite fetch_dac_reset_run in Hrun. cbn [bind emit ret app] in Hrun.
        destruct (fetch_dispatch chp fetch_dac_commands _ cmd_list data_list)
          as [t' [r'|]]; cbn in Hrun; [|discriminate].
        injection Hrun as _ <- _. reflexivity. }
    split; [exact Hflag|].
    intros chp' c' d'. rewrite (Hset _ _ _ _ Hflag).
    apply (Htr _ _ _ (fun r => (st1, r))).
Qed.

End DacCommands.

(** The dispatcher on the sample platform: the first command starts the
    drivers, the second one only runs its handler. *)
Example dac_dispatch_twice :
  exists t1 st1,
    FetchDac.fetch_dac_dispatch (defs := FetchDac.board_defs) FetchDac.initial_state
      (Some 0%nat) [Some "dac"; Some "write"] [Some "4"; Some "2048"]
    = (t1, Returned (st1, true))
    /\ existsb is_driver_start t1 = true
    /\ FetchDac.fetch_dac_dispatch (defs := FetchDac.board_defs) st1
         (Some 0%nat) [Some "dac"; Some "write"] [Some "1"; Some "7"]
       = ([SpiSelect; SpiSend [80; 7]; SpiUnselect], Returned (st1, true)).
Proof. eexists _, _. repeat split. Qed.

(** ** gpio.c: resolved commands *)

Section Resolved.

Import UtilMessages Gpio.

Context {defs : FetchDefs}.

Lemma gpio_get_port_pin_resolved (chp : option stream) (terms : Fetch_terminals)
    (cmd_list : list (option string)) (t1 t2 : list event) (p : GPIO_port)
    (q : GPIO_pinnum) (port : option GPIO_port) (pin : GPIO_pinnum) :
  resolves_to chp terms cmd_list t1 t2 p q ->
  gpio_get_port_pin chp cmd_list terms port pin = (t1 ++ t2, Returned (true, Some p, q)).
Proof.
  intros ((v & Hv & Hv0) & Hp & (w & Hw & Hw0) & Hq & Hnq).
  unfold gpio_get_port_pin.
  rewrite (bind_returned _ _ _ _ Hv).
  replace (0 <=? v) with true by (symmetry; apply Z.leb_le; assumption).
  rewrite Hp, bind_ret. cbn [is_null negb].
  rewrite (bind_returned _ _ _ _ Hw).
  replace (0 <=? w) with true by (symmetry; apply Z.leb_le; assumption).
  rewrite Hq, bind_ret.
  destruct q; try contradiction; cbn; rewrite ?app_nil_r; reflexivity.
Qed.

(** X5: when the port and pin tokens resolve to port [p] and pin [q],
    [gpio_set] performs [palSetPad(p, q)], [gpio_clear] performs
    [palClearPad(p, q)] and [gpio_get] performs [palReadPad(p, q)] and prints
    the level as a decimal line; each does nothing else after the two token
    checks and returns true.  [gpio_get] writes its line without taking the
    output semaphore, and with a NULL stream it reads the pad and then uses
    the NULL stream. *)
Theorem resolved_handlers_drive_the_pad (chp : option stream) (terms : Fetch_terminals)
    (cmd_list : list (option string)) (t1 t2 : list event) (p : GPIO_port)
    (q : GPIO_pinnum) :
  resolves_to chp terms cmd_list t1 t2 p q ->
  gpio_set chp terms cmd_list = (t1 ++ t2 ++ [PalSetPad p q], Returned true)
  /\ gpio_clear chp terms cmd_list = (t1 ++ t2 ++ [PalClearPad p q], Returned true)
  /\ (forall s, chp = Some s ->
        gpio_get chp terms cmd_list
        = (t1 ++ t2 ++ [PalReadPad p q;
                        Put s (render ("%d" ++ CRLF) [AInt (pad_level p q)])],
           Returned true))
  /\ (chp = None ->
      gpio_get chp terms cmd_list = (t1 ++ t2 ++ [PalReadPad p q], Fault)).
Proof.
  intros H.
  assert (Hq : is_no_pin q = false) by (destruct H as (_ & _ & _ & _ & Hq); destruct q;
                                         try reflexivity; contradiction).
  assert (Hop : forall op, on_pad (true, Some p, q) op = (op p q ;; ret true))
    by (intros op; unfold on_pad; rewrite Hq; reflexivity).
  unfold gpio_set, gpio_clear, gpio_get.
  rewrite !(bind_returned _ _ _ _ (gpio_get_port_pin_resolved _ _ _ _ _ _ _ _ _ H)).
  rewrite !Hop.
  repeat split; try (intros s ->); try (intros ->); cbn; rewrite <- app_assoc; reflexivity.
Qed.

End Resolved.

Lemma resolved_handlers_drive_the_pad_witness :
  Gpio.gpio_clear (defs := Gpio.board_defs) None Gpio.board_terms
    [Some "gpio"; Some "clear"; Some "PortC"; Some "pin12"]
  = ([] ++ [] ++ [PalClearPad GPIOC PIN12], Returned true).
Proof.
  apply (@resolved_handlers_drive_the_pad Gpio.board_defs None Gpio.board_terms
           [Some "gpio"; Some "clear"; Some "PortC"; Some "pin12"] [] [] GPIOC PIN12).
  repeat split; try (eexists; split; [reflexivity | vm_compute; discriminate]);
    discriminate.
Defined.

(** ** gpio.c: configuration and dispatch *)

Section ConfigAndDispatch.

Import UtilMessages Gpio.

Context {defs : FetchDefs}.

Lemma begins_with_strncasecmp (tok lit : string) :
  cstring tok -> cstring lit -> casefold lit = lit ->
  (strncasecmp tok lit (strlen lit) =? 0) = begins_with lit tok.
Proof.
  intros Ht Hl Hfold. unfold begins_with, strlen.
  pose proof (strncasecmp_zero tok lit (String.length lit) Ht Hl) as H.
  rewrite (take_all _ lit), Hfold in H by lia.
  destruct (Z.eqb_spec (strncasecmp tok lit (String.length lit)) 0) as [E | E];
    destruct (String.eqb_spec (casefold (take (String.length lit) tok)) lit) as [F | F];
    try reflexivity; exfalso; tauto.
Qed.

Lemma pad_events_app (t1 t2 : list event) :
  pad_events (t1 ++ t2) = pad_events t1 ++ pad_events t2.
Proof. apply filter_app. Qed.

Lemma pad_events_none (t : list event) : no_pad_ops t -> pad_events t = [].
Proof.
  unfold no_pad_ops, pad_events. induction t as [|e t IH]; [reflexivity|].
  cbn [forallb filter]. intros H. apply andb_true_iff in H. destruct H as [He Ht].
  destruct (is_pad_op e); [discriminate | auto].
Qed.

Lemma pad_run_bind {A B : Type} (m : M A) (k : A -> M B) (a : A) :
  no_pad_ops (trace m) -> result m = Returned a -> pad_run (bind m k) = pad_run (k a).
Proof.
  intros Hq Hr. unfold pad_run. rewrite trace_bind, result_bind, Hr.
  rewrite pad_events_app, (pad_events_none _ Hq). reflexivity.
Qed.

Lemma pad_run_bind_ret {A B : Type} (a : A) (k : A -> M B) :
  pad_run (bind (ret a) k) = pad_run (k a).
Proof. rewrite bind_ret. reflexivity. Qed.

Lemma debug_returns (chp : option stream) (line : Z) (func fmt : string)
    (args : list arg) :
  result (DBG_VMSG chp line func fmt args) = Returned tt.
Proof.
  unfold DBG_VMSG, util_message_debug, newline_if_needed.
  destruct chp; [|reflexivity]. cbn [is_null orb].
  destruct (needs_newline (Some fmt)); reflexivity.
Qed.

Lemma pad_run_debug {B : Type} (chp : option stream) (line : Z) (func fmt : string)
    (args : list arg) (k : unit -> M B) :
  pad_run (bind (DBG_VMSG chp line func fmt args) k) = pad_run (k tt).
Proof. apply pad_run_bind; [apply debug_no_pad | apply debug_returns]. Qed.

(** [gpio_dispatch] on an accepted action token runs [routed]. *)
Lemma gpio_dispatch_routed (chp : option stream)
    (cmd_list data_list : list (option string)) (terms : Fetch_terminals)
    (action : string) (t : list event) (v : Z) :
  slot cmd_list ACTION = Some action -> cstring action ->
  gpio_is_valid_gpio_subcommandA chp terms (Some action) = (t, Returned v) -> 0 <= v ->
  gpio_dispatch chp cmd_list data_list terms
  = (t ++ trace (routed chp cmd_list terms action),
     result (routed chp cmd_list terms action)).
Proof.
  intros Ha Hc Hv Hv0. unfold gpio_dispatch. rewrite Ha.
  rewrite (bind_returned _ _ _ _ Hv).
  replace (0 <=? v) with true by (symmetry; apply Z.leb_le; assumption).
  cbn [strncasecmp_ptr]. unfold routed.
  rewrite bind_ret, (begins_with_strncasecmp action "get" Hc)
    by (cbv; intuition discriminate).
  destruct (begins_with "get" action); [reflexivity|].
  rewrite bind_ret, (begins_with_strncasecmp action "set" Hc)
    by (cbv; intuition discriminate).
  destruct (begins_with "set" action); [reflexivity|].
  rewrite bind_ret, (begins_with_strncasecmp action "clear" Hc)
    by (cbv; intuition discriminate).
  destruct (begins_with "clear" action); [reflexivity|].
  rewrite bind_ret, (begins_with_strncasecmp action "config" Hc)
    by (cbv; intuition discriminate).
  destruct (begins_with "config" action); [|reflexivity].
  destruct (slot cmd_list DIRECTION), (slot cmd_list SENSE); reflexivity.
Qed.

Lemma take_take (k n : nat) (s : string) : (k <= n)%nat -> take k (take n s) = take k s.
Proof.
  revert k n. induction s as [|c s IH]; intros [|k] [|n] H; cbn; try reflexivity; try lia.
  rewrite IH by lia. reflexivity.
Qed.

Lemma casefold_take (k : nat) (s : string) : casefold (take k s) = take k (casefold s).
Proof.
  revert k. induction s as [|c s IH]; intros [|k]; cbn; try reflexivity.
  rewrite IH. reflexivity.
Qed.

(** A token that begins with a word begins with a shorter word exactly when
    the two words begin alike. *)
Lemma begins_with_shorter (l1 l2 tok : string) :
  begins_with l1 tok = true -> (String.length l2 <= String.length l1)%nat ->
  begins_with l2 tok = String.eqb (take (String.length l2) l1) l2.
Proof.
  unfold begins_with. intros H Hlen. apply String.eqb_eq in H.
  rewrite <- H at 1. rewrite <- casefold_take, take_take by assumption. reflexivity.
Qed.

(** X9: [gpio_dispatch] hands an accepted action token to the handler whose
    name the token begins with, ignoring case: [get], [set], [clear], or
    [config] when the direction and sense tokens are both present; the result
    and the events of the command are those of the handler, after the events
    of the token check. *)
Theorem gpio_dispatch_routes_by_prefix (chp : option stream)
    (cmd_list data_list : list (option string)) (terms : Fetch_terminals)
    (action : string) (t : list event) (v : Z) :
  slot cmd_list ACTION = Some action -> cstring action ->
  gpio_is_valid_gpio_subcommandA chp terms (Some action) = (t, Returned v) -> 0 <= v ->
  (begins_with "get" action = true ->
   gpio_dispatch chp cmd_list data_list terms
   = (t ++ trace (gpio_get chp terms cmd_list), result (gpio_get chp terms cmd_list)))
  /\ (begins_with "set" action = true ->
      gpio_dispatch chp cmd_list data_list terms
      = (t ++ trace (gpio_set chp terms cmd_list), result (gpio_set chp terms cmd_list)))
  /\ (begins_with "clear" action = true ->
      gpio_dispatch chp cmd_list data_list terms
      = (t ++ trace (gpio_clear chp terms cmd_list),
         result (gpio_clear chp terms cmd_list)))
  /\ (begins_with "config" action = true ->
      slot cmd_list DIRECTION <> None -> slot cmd_list SENSE <> None ->
      gpio_dispatch chp cmd_list data_list terms
      = (t ++ trace (gpio_config chp terms cmd_list),
         result (gpio_config chp terms cmd_list))).
Proof.
  intros Ha Hc Hv Hv0.
  rewrite (gpio_dispatch_routed _ _ _ _ _ _ _ Ha Hc Hv Hv0). unfold routed.
  repeat split.
  - intros H. rewrite H. reflexivity.
  - intros H. rewrite (begins_with_shorter _ "get" _ H), H by (cbn; lia). reflexivity.
  - intros H.
    rewrite (begins_with_shorter _ "get" _ H), (begins_with_shorter _ "set" _ H), H
      by (cbn; lia).
    reflexivity.
  - intros H Hd Hs.
    rewrite (begins_with_shorter _ "get" _ H), (begins_with_shorter _ "set" _ H),
      (begins_with_shorter _ "clear" _ H), H by (cbn; lia).
    cbn [String.eqb take String.length Ascii.eqb Bool.eqb].
    destruct (slot cmd_list DIRECTION); [|contradiction].
    destruct (slot cmd_list SENSE); [|contradiction]. reflexivity.
Qed.

(** X8: [gpio_dispatch] runs no handler for an action token the terminal set
    rejects (it returns false after the token check alone), for [config]
    without a direction or without a sense token (false again, the NULL token
    is never used), and for an accepted token that begins with none of the
    four handler names (a debug line, then false). *)
Theorem gpio_dispatch_refuses (chp : option stream)
    (cmd_list data_list : list (option string)) (terms : Fetch_terminals)
    (t : list event) (v : Z) :
  gpio_is_valid_gpio_subcommandA chp terms (slot cmd_list ACTION) = (t, Returned v) ->
  (v < 0 -> gpio_dispatch chp cmd_list data_list terms = (t, Returned false))
  /\ (forall action,
        0 <= v -> slot cmd_list ACTION = Some action -> cstring action ->
        begins_with "config" action = true ->
        slot cmd_list DIRECTION = None \/ slot cmd_list SENSE = None ->
        gpio_dispatch chp cmd_list data_list terms = (t, Returned false))
  /\ (forall action,
        0 <= v -> slot cmd_list ACTION = Some action -> cstring action ->
        begins_with "get" action = false -> begins_with "set" action = false ->
        begins_with "clear" action = false -> begins_with "config" action = false ->
        gpio_dispatch chp cmd_list data_list terms
        = (t ++ trace (DBG_MSG chp 338 "gpio_dispatch" "sub-command not ready yet..."),
           Returned false)
        /\ pad_events (trace (gpio_dispatch chp cmd_list data_list terms))
           = pad_events t).
Proof.
  intros Hv. split; [|split].
  - intros Hneg. unfold gpio_dispatch. rewrite (bind_returned _ _ _ _ Hv).
    replace (0 <=? v) with false by (symmetry; apply Z.leb_gt; assumption).
    cbn. rewrite app_nil_r. reflexivity.
  - intros action Hv0 Ha Hc Hcfg Hnull. rewrite Ha in Hv.
    rewrite (gpio_dispatch_routed _ _ _ _ _ _ _ Ha Hc Hv Hv0). unfold routed.
    rewrite (begins_with_shorter _ "get" _ Hcfg), (begins_with_shorter _ "set" _ Hcfg),
      (begins_with_shorter _ "clear" _ Hcfg), Hcfg by (cbn; lia).
    cbn [String.eqb take String.length Ascii.eqb Bool.eqb].
    destruct Hnull as [-> | ->]; [|destruct (slot cmd_list DIRECTION)];
      cbn; rewrite app_nil_r; reflexivity.
  - intros action Hv0 Ha Hc Hg Hs Hcl Hcfg. rewrite Ha in Hv.
    rewrite (gpio_dispatch_routed _ _ _ _ _ _ _ Ha Hc Hv Hv0). unfold routed.
    rewrite Hg, Hs, Hcl, Hcfg.
    assert (Hd := debug_returns chp 338 "gpio_dispatch" "sub-command not ready yet..." []).
    assert (Hp := debug_no_pad chp 338 "gpio_dispatch" "sub-command not ready yet..." []).
    fold (DBG_MSG chp 338 "gpio_dispatch" "sub-command not ready yet...") in Hd, Hp.
    rewrite trace_bind, result_bind, Hd. cbn [ret trace result fst snd].
    rewrite app_nil_r. split; [reflexivity|].
    rewrite pad_events_app, (pad_events_none _ Hp), app_nil_r. reflexivity.
Qed.

Section Config.

(** [token_match] is a string function: it drives no pad. *)
Hypothesis token_match_quiet :
  forall chp terms tok n, no_pad_ops (trace (token_match chp terms tok n)).

Lemma pad_run_then {A B : Type} (m : M A) (k : A -> M B) (a : A) (evs : list event) :
  pad_run m = (Returned a, evs) ->
  pad_run (bind m k) = (result (k a), evs ++ pad_events (trace (k a))).
Proof.
  unfold pad_run. intros [= Hr He].
  rewrite trace_bind, result_bind, Hr, pad_events_app, He. reflexivity.
Qed.

Lemma gpio_config_pad_run (chp : option stream) (terms : Fetch_terminals)
    (cmd_list : list (option string)) (t1 t2 : list event) (p : GPIO_port)
    (q : GPIO_pinnum) (direction sense : Z) :
  resolves_to chp terms cmd_list t1 t2 p q ->
  pad_run (gpio_config_pad chp terms cmd_list direction sense)
  = (Returned true, [PalSetPadMode p q (Z.lor direction sense)]).
Proof.
  intros H.
  assert (Hq : is_no_pin q = false)
    by (destruct H as (_ & _ & _ & _ & Hq); destruct q; try reflexivity; contradiction).
  pose proof (gpio_get_port_pin_resolved chp terms cmd_list t1 t2 p q None PIN0 H) as Hrun.
  unfold gpio_config_pad.
  rewrite (pad_run_bind _ _ (true, Some p, q)).
  - unfold on_pad. rewrite Hq. cbn [negb].
    rewrite (pad_run_then _ _ tt [PalSetPadMode p q (Z.lor direction sense)]);
      [reflexivity|].
    rewrite !pad_run_debug. reflexivity.
  - apply (gpio_get_port_pin_no_pad token_match_quiet).
  - rewrite Hrun. reflexivity.
Qed.

Lemma gpio_config_sense_run (chp : option stream) (terms : Fetch_terminals)
    (cmd_list : list (option string)) (t1 t2 : list event) (p : GPIO_port)
    (q : GPIO_pinnum) (direction sense : Z) (tok : string) :
  resolves_to chp terms cmd_list t1 t2 p q ->
  slot cmd_list SENSE = Some tok -> cstring tok ->
  accepted (gpio_is_valid_gpio_sense chp terms (Some tok)) ->
  sense_bits tok = Some sense ->
  pad_run (gpio_config_sense chp terms cmd_list direction)
  = (Returned true, [PalSetPadMode p q (Z.lor direction sense)]).
Proof.
  intros H Hs Hc (n & Hn & Hn0) Hbits.
  unfold gpio_config_sense. rewrite Hs.
  rewrite (pad_run_bind _ _ n (token_match_quiet _ _ _ _) Hn).
  replace (0 <=? n) with true by (symmetry; apply Z.leb_le; assumption).
  cbn [strncasecmp_ptr]. unfold sense_bits in Hbits.
  rewrite pad_run_bind_ret, (begins_with_strncasecmp tok "pullup" Hc)
    by (cbv; intuition discriminate).
  destruct (begins_with "pullup" tok);
    [injection Hbits as <-; apply (gpio_config_pad_run _ _ _ _ _ _ _ _ _ H)|].
  rewrite pad_run_bind_ret, (begins_with_strncasecmp tok "pulldown" Hc)
    by (cbv; intuition discriminate).
  destruct (begins_with "pulldown" tok);
    [injection Hbits as <-; apply (gpio_config_pad_run _ _ _ _ _ _ _ _ _ H)|].
  rewrite pad_run_bind_ret, (begins_with_strncasecmp tok "floating" Hc)
    by (cbv; intuition discriminate).
  destruct (begins_with "floating" tok);
    [injection Hbits as <-; apply (gpio_config_pad_run _ _ _ _ _ _ _ _ _ H)|].
  rewrite pad_run_bind_ret, (begins_with_strncasecmp tok "analog" Hc)
    by (cbv; intuition discriminate).
  destruct (begins_with "analog" tok);
    [injection Hbits as <-; apply (gpio_config_pad_run _ _ _ _ _ _ _ _ _ H)|].
  discriminate.
Qed.

(** X6: with the port and pin tokens resolved to [p] and [q], a direction
    token that is accepted and begins with [input] or [output] and a sense
    token that is accepted and begins with [pullup], [pulldown], [floating]
    or [analog], [gpio_config] returns true and its only pad operation is
    [palSetPadMode(p, q, direction | sense)] with the bits of the two words. *)
Theorem gpio_config_sets_mode (chp : option stream) (terms : Fetch_terminals)
    (cmd_list : list (option string)) (t1 t2 : list event) (p : GPIO_port)
    (q : GPIO_pinnum) (dtok stok : string) (direction sense : Z) :
  resolves_to chp terms cmd_list t1 t2 p q ->
  slot cmd_list DIRECTION = Some dtok -> cstring dtok ->
  accepted (gpio_is_valid_gpio_direction chp terms (Some dtok)) ->
  direction_bits dtok = Some direction ->
  slot cmd_list SENSE = Some stok -> cstring stok ->
  accepted (gpio_is_valid_gpio_sense chp terms (Some stok)) ->
  sense_bits stok = Some sense ->
  only_pad_op (gpio_config chp terms cmd_list)
    (PalSetPadMode p q (Z.lor direction sense)).
Proof.
  intros H Hd Hdc (n & Hn & Hn0) Hdbits Hs Hsc Hsacc Hsbits.
  assert (Hrun : pad_run (gpio_config chp terms cmd_list)
                 = (Returned true, [PalSetPadMode p q (Z.lor direction sense)])).
  { unfold gpio_config. rewrite Hd.
    rewrite (pad_run_bind _ _ n (token_match_quiet _ _ _ _) Hn).
    replace (0 <=? n) with true by (symmetry; apply Z.leb_le; assumption).
    cbn [strncasecmp_ptr]. unfold direction_bits in Hdbits.
    rewrite pad_run_bind_ret, (begins_with_strncasecmp dtok "input" Hdc)
      by (cbv; intuition discriminate).
    destruct (begins_with "input" dtok);
      [injection Hdbits as <-;
       apply (gpio_config_sense_run _ _ _ _ _ _ _ _ _ _ H Hs Hsc Hsacc Hsbits)|].
    rewrite pad_run_bind_ret, (begins_with_strncasecmp dtok "output" Hdc)
      by (cbv; intuition discriminate).
    destruct (begins_with "output" dtok);
      [injection Hdbits as <-;
       apply (gpio_config_sense_run _ _ _ _ _ _ _ _ _ _ H Hs Hsc Hsacc Hsbits)|].
    discriminate. }
  unfold pad_run in Hrun. injection Hrun as Hr He. split; assumption.
Qed.

(** X7: [gpio_config] returns false without any pad operation when the
    terminal set rejects the direction token, when an accepted direction
    token begins with neither [input] nor [output], when the terminal set
    rejects the sense token, and when an accepted sense token begins with none
    of the four sense words; the port and pin tokens are not looked at. *)
Theorem gpio_config_refuses (chp : option stream) (terms : Fetch_terminals)
    (cmd_list : list (option string)) :
  (forall n,
      result (gpio_is_valid_gpio_direction chp terms (slot cmd_list DIRECTION))
      = Returned n ->
      n < 0 -> pad_run (gpio_config chp terms cmd_list) = (Returned false, []))
  /\ (forall dtok,
        slot cmd_list DIRECTION = Some dtok -> cstring dtok ->
        accepted (gpio_is_valid_gpio_direction chp terms (Some dtok)) ->
        (direction_bits dtok = None ->
         pad_run (gpio_config chp terms cmd_list) = (Returned false, []))
        /\ (forall n,
              direction_bits dtok <> None ->
              result (gpio_is_valid_gpio_sense chp terms (slot cmd_list SENSE))
              = Returned n ->
              n < 0 -> pad_run (gpio_config chp terms cmd_list) = (Returned false, []))
        /\ (forall stok,
              direction_bits dtok <> None ->
              slot cmd_list SENSE = Some stok -> cstring stok ->
              accepted (gpio_is_valid_gpio_sense chp terms (Some stok)) ->
              sense_bits stok = None ->
              pad_run (gpio_config chp terms cmd_list) = (Returned false, []))).
Proof.
  assert (Hsense : forall direction,
             (forall n,
                 result (gpio_is_valid_gpio_sense chp terms (slot cmd_list SENSE))
                 = Returned n ->
                 n < 0 ->
                 pad_run (gpio_config_sense chp terms cmd_list direction)
                 = (Returned false, []))
             /\ (forall stok,
                   slot cmd_list SENSE = Some stok -> cstring stok ->
                   accepted (gpio_is_valid_gpio_sense chp terms (Some stok)) ->
                   sense_bits stok = None ->
                   pad_run (gpio_config_sense chp terms cmd_list direction)
                   = (Returned false, []))).
  { intros direction. split.
    - intros n Hn Hneg. unfold gpio_config_sense.
      rewrite (pad_run_bind _ _ n (token_match_quiet _ _ _ _) Hn).
      replace (0 <=? n) with false by (symmetry; apply Z.leb_gt; assumption).
      reflexivity.
    - intros stok Hs Hc (n & Hn & Hn0) Hbits. unfold gpio_config_sense. rewrite Hs.
      rewrite (pad_run_bind _ _ n (token_match_quiet _ _ _ _) Hn).
      replace (0 <=? n) with true by (symmetry; apply Z.leb_le; assumption).
      cbn [strncasecmp_ptr]. unfold sense_bits in Hbits.
      rewrite pad_run_bind_ret, (begins_with_strncasecmp stok "pullup" Hc)
        by (cbv; intuition discriminate).
      destruct (begins_with "pullup" stok); [discriminate|].
      rewrite pad_run_bind_ret, (begins_with_strncasecmp stok "pulldown" Hc)
        by (cbv; intuition discriminate).
      destruct (begins_with "pulldown" stok); [discriminate|].
      rewrite pad_run_bind_ret, (begins_with_strncasecmp stok "floating" Hc)
        by (cbv; intuition discriminate).
      destruct (begins_with "floating" stok); [discriminate|].
      rewrite pad_run_bind_ret, (begins_with_strncasecmp stok "analog" Hc)
        by (cbv; intuition discriminate).
      destruct (begins_with "analog" stok); [discriminate|]. reflexivity. }
  split.
  - intros n Hn Hneg. unfold gpio_config.
    rewrite (pad_run_bind _ _ n (token_match_quiet _ _ _ _) Hn).
    replace (0 <=? n) with false by (symmetry; apply Z.leb_gt; assumption).
    reflexivity.
  - intros dtok Hd Hc (n & Hn & Hn0).
    assert (Hstage : pad_run (gpio_config chp terms cmd_list)
                     = match direction_bits dtok with
                       | Some direction =>
                           pad_run (gpio_config_sense chp terms cmd_list direction)
                       | None => (Returned false, [])
                       end).
    { unfold gpio_config. rewrite Hd.
      rewrite (pad_run_bind _ _ n (token_match_quiet _ _ _ _) Hn).
      replace (0 <=? n) with true by (symmetry; apply Z.leb_le; assumption).
      cbn [strncasecmp_ptr]. unfold direction_bits.
      rewrite pad_run_bind_ret, (begins_with_strncasecmp dtok "input" Hc)
        by (cbv; intuition discriminate).
      destruct (begins_with "input" dtok); [reflexivity|].
      rewrite pad_run_bind_ret, (begins_with_strncasecmp dtok "output" Hc)
        by (cbv; intuition discriminate).
      destruct (begins_with "output" dtok); [reflexivity|].
      unfold DBG_MSG. rewrite pad_run_debug. reflexivity. }
    rewrite Hstage.
    destruct (direction_bits dtok) as [direction|].
    + destruct (Hsense direction) as [H1 H2].
      split; [discriminate|]. split; intros; eauto.
    + split; [reflexivity|]. split; intros; congruence.
Qed.

End Config.

End ConfigAndDispatch.

(** The four theorems on the sample platform. *)
Lemma gpio_dispatch_routes_by_prefix_witness :
  Gpio.gpio_dispatch (defs := Gpio.board_defs) None
    [Some "gpio"; Some "SET"; Some "porta"; Some "pin3"] [] Gpio.board_terms
  = ([] ++ trace (Gpio.gpio_set (defs := Gpio.board_defs) None Gpio.board_terms
                    [Some "gpio"; Some "SET"; Some "porta"; Some "pin3"]),
     result (Gpio.gpio_set (defs := Gpio.board_defs) None Gpio.board_terms
               [Some "gpio"; Some "SET"; Some "porta"; Some "pin3"])).
Proof.
  apply (@gpio_dispatch_routes_by_prefix Gpio.board_defs None
           [Some "gpio"; Some "SET"; Some "porta"; Some "pin3"] [] Gpio.board_terms
           "SET" [] 1 eq_refl);
    [cbv; intuition discriminate | reflexivity | lia | reflexivity].
Defined.

Lemma gpio_dispatch_refuses_witness :
  Gpio.gpio_dispatch (defs := Gpio.board_defs) None
    [Some "gpio"; Some "toggle"; Some "porta"; Some "pin3"] [] Gpio.board_terms
  = ([], Returned false).
Proof.
  apply (@gpio_dispatch_refuses Gpio.board_defs None
           [Some "gpio"; Some "toggle"; Some "porta"; Some "pin3"] [] Gpio.board_terms
           [] (-1) eq_refl).
  lia.
Defined.

Lemma gpio_config_sets_mode_witness :
  only_pad_op
    (Gpio.gpio_config (defs := Gpio.board_defs) None Gpio.board_terms
       [Some "gpio"; Some "config"; Some "portb"; Some "pin1"; Some "Output";
        Some "pullup"])
    (PalSetPadMode GPIOB PIN1 (Z.lor 1 32)).
Proof.
  apply (@gpio_config_sets_mode Gpio.board_defs (token_match_spec_no_pad 25) None
           Gpio.board_terms
           [Some "gpio"; Some "config"; Some "portb"; Some "pin1"; Some "Output";
            Some "pullup"] [] [] GPIOB PIN1 "Output" "pullup" 1 32);
    try reflexivity;
    try (cbv; intuition discriminate);
    try (eexists; split; [reflexivity | vm_compute; discriminate]).
  repeat split; try (eexists; split; [reflexivity | vm_compute; discriminate]);
    discriminate.
Defined.

Lemma gpio_config_refuses_witness :
  pad_run
    (Gpio.gpio_config (defs := Gpio.board_defs) None Gpio.board_terms
       [Some "gpio"; Some "config"; Some "portb"; Some "pin1"; Some "sideways";
        Some "pullup"])
  = (Returned false, []).
Proof.
  apply (proj1 (@gpio_config_refuses Gpio.board_defs (token_match_spec_no_pad 25) None
                  Gpio.board_terms
                  [Some "gpio"; Some "config"; Some "portb"; Some "pin1";
                   Some "sideways"; Some "pullup"]) (-1));
    [reflexivity | lia].
Defined.

(** ** util_messages.c: the typed lines *)

Section TypedLines.

Import UtilMessages.

Lemma render_literal (text : string) (args : list arg) :
  no_percent text = true -> render_from InText text args = text.
Proof.
  induction text as [|c text IH]; [reflexivity|].
  cbn [no_percent render_from step]. intros H. apply andb_true_iff in H.
  destruct H as [Hc Ht]. destruct (Ascii.eqb c "%"%char); [discriminate|].
  cbn [append]. rewrite (IH Ht). reflexivity.
Qed.

Lemma render_from_text (c : ascii) (r : string) (args : list arg) :
  Ascii.eqb c "%"%char = false ->
  render_from InText (String c r) args = String c (render_from InText r args).
Proof. intros H. cbn [render_from step]. rewrite H. reflexivity. Qed.

(** A format with one [%s] between two literal texts. *)
Lemma render_around (pre post : string) (name : option string) :
  no_percent pre = true -> no_percent post = true ->
  render (pre ++ "%s" ++ post) [AStr name] = (pre ++ name_text name ++ post)%string.
Proof.
  intros Hpre Hpost. unfold render.
  induction pre as [|c pre IH].
  - change (render_from InText ("" ++ "%s" ++ post) [AStr name])
      with (fst (conv false " "%char 0 0 "s"%char [AStr name])
            ++ render_from InText post [])%string.
    unfold name_text, render.
    change (render_from InText "%s" [AStr name])
      with (fst (conv false " "%char 0 0 "s"%char [AStr name]) ++ "")%string.
    rewrite string_app_empty, (render_literal post [] Hpost). reflexivity.
  - cbn [no_percent] in Hpre. apply andb_true_iff in Hpre. destruct Hpre as [Hc Hpre].
    change (String c pre ++ "%s" ++ post)%string
      with (String c (pre ++ "%s" ++ post)).
    rewrite render_from_text by (apply negb_true_iff, Hc).
    rewrite (IH Hpre). reflexivity.
Qed.

Lemma skipn_nth_error {A : Type} (l : list A) (i : nat) (x : A) :
  nth_error l i = Some x -> skipn i l = x :: skipn (S i) l.
Proof.
  revert i. induction l as [|y l IH]; intros [|i] H; cbn in *; try discriminate.
  - injection H as ->. reflexivity.
  - apply IH, H.
Qed.

Lemma join_commas_cons (a : string) (l : list string) :
  join_commas (a :: l)
  = match l with
    | [] => a
    | _ :: _ => (a ++ "," ++ join_commas l)%string
    end.
Proof. destruct l; reflexivity. Qed.

Lemma count_loop_first (s : stream) (fmt : string) (elem : Z -> Z) (count : nat) :
  forall data, (count <= List.length data)%nat ->
  result (count_loop (Some s) fmt elem data count) = Returned tt
  /\ emitted s (trace (count_loop (Some s) fmt elem data count))
     = join_commas (List.map (fun x => render fmt [AInt (elem x)]) (firstn count data)).
Proof.
  induction count as [|n IH]; intros data Hlen; [split; reflexivity|].
  destruct data as [|x data]; [cbn in Hlen; lia|].
  cbn [List.length] in Hlen. destruct (IH data ltac:(lia)) as [IHr IHt].
  cbn [count_loop firstn List.map]. rewrite join_commas_cons, <- IHt.
  destruct (count_loop (Some s) fmt elem data n) as [t r] eqn:E.
  unfold result, trace in *. cbn [fst snd] in *. subst r.
  destruct n as [|n].
  - cbn in E. injection E as <-. cbn. rewrite Nat.eqb_refl, string_app_empty. auto.
  - destruct data as [|y data]; [cbn in Hlen; lia|].
    cbn [firstn List.map Nat.ltb Nat.leb].
    unfold chprintf, chvprintf, emit, bind, ret. cbn [fst snd app emitted].
    rewrite !Nat.eqb_refl. split; reflexivity.
Qed.

Lemma index_loop_first {A : Type} (s : stream) (fmt : string) (mk : A -> arg)
    (array : list A) (count : nat) (todo : nat) :
  forall i, (i + todo = count)%nat -> (count <= List.length array)%nat ->
  result (index_loop (Some s) fmt mk array count i todo) = Returned tt
  /\ emitted s (trace (index_loop (Some s) fmt mk array count i todo))
     = join_commas (List.map (fun x => render fmt [mk x]) (firstn todo (skipn i array))).
Proof.
  induction todo as [|n IH]; intros i Hi Hlen; [split; reflexivity|].
  destruct (nth_error array i) as [x|] eqn:Ex;
    [|apply nth_error_None in Ex; lia].
  destruct (IH (i + 1)%nat ltac:(lia) Hlen) as [IHr IHt].
  cbn [index_loop]. rewrite Ex, (skipn_nth_error _ _ _ Ex).
  cbn [firstn List.map]. rewrite join_commas_cons.
  replace (S i) with (i + 1)%nat by lia. rewrite <- IHt.
  destruct (index_loop (Some s) fmt mk array count (i + 1) n) as [t r] eqn:E.
  unfold result, trace in *. cbn [fst snd] in *. subst r.
  destruct n as [|n].
  - cbn in E. injection E as <-.
    replace (i + 1 <? count)%nat with false by (symmetry; apply Nat.ltb_ge; lia).
    cbn. rewrite Nat.eqb_refl, string_app_empty. auto.
  - replace (i + 1 <? count)%nat with true by (symmetry; apply Nat.ltb_lt; lia).
    destruct (nth_error array (i + 1)) as [y|] eqn:Ey;
      [|apply nth_error_None in Ey; lia].
    rewrite (skipn_nth_error _ _ _ Ey). cbn [firstn List.map].
    unfold chprintf, chvprintf, emit, bind, ret. cbn [fst snd app emitted].
    rewrite !Nat.eqb_refl. split; reflexivity.
Qed.

Lemma int_array_line (tag fmt : string) (elem : Z -> Z) (s : stream)
    (name : option string) (data : list Z) (count : nat) :
  no_percent tag = true -> (count <= List.length data)%nat ->
  result (int_array (tag ++ "%s" ++ ":") fmt elem (Some s) name data count) = Returned tt
  /\ emitted s (trace (int_array (tag ++ "%s" ++ ":") fmt elem (Some s) name data count))
     = array_line tag name
         (List.map (fun x => render fmt [AInt (elem x)]) (firstn count data)).
Proof.
  intros Htag Hlen. destruct (count_loop_first s fmt elem count data Hlen) as [Hr Ht].
  unfold int_array, array_line. cbn [is_null].
  destruct (count_loop (Some s) fmt elem data count) as [t r] eqn:E.
  unfold result, trace in *. cbn [fst snd] in *. subst r.
  unfold chBSemWait, chBSemSignal, chprintf, chvprintf, emit, bind.
  cbn [fst snd app emitted]. rewrite Nat.eqb_refl, emitted_app, Ht.
  cbn [emitted]. rewrite Nat.eqb_refl, string_app_empty.
  rewrite (render_around tag ":" name Htag eq_refl), !string_app_assoc. auto.
Qed.

(** X10: each array emission writes one line: its tag, the name, a colon,
    the first [count] elements each printed with the conversion of the
    function and separated by single commas with none after the last, then
    CR LF.  This holds for the nine integer array functions, for the string
    array and for the float array, whenever the array holds [count] elements;
    a [count] of zero gives the tag and name alone. *)
Theorem array_emissions_write_one_line (s : stream) (name : option string)
    (count : nat) :
  Forall
    (fun '(tag, fmt, elem, emission) =>
       forall data : list Z,
         (count <= List.length data)%nat ->
         result (emission (Some s) name data count) = Returned tt
         /\ emitted s (trace (emission (Some s) name data count))
            = array_line tag name
                (List.map (fun x => render fmt [AInt (elem x)]) (firstn count data)))
    int_array_functions
  /\ (forall str_array : list (option string),
        (count <= List.length str_array)%nat ->
        result (util_message_string_array (Some s) name str_array count) = Returned tt
        /\ emitted s (trace (util_message_string_array (Some s) name str_array count))
           = array_line "SA:" name
               (List.map (fun x => render "%s" [AStr x]) (firstn count str_array)))
  /\ (forall data : list double,
        (count <= List.length data)%nat ->
        result (util_message_double (Some s) name data count) = Returned tt
        /\ emitted s (trace (util_message_double (Some s) name data count))
           = array_line "F:" name
               (List.map (fun x => render "%f" [ADouble x]) (firstn count data))).
Proof.
  assert (Hindex : forall (A : Type) (tag fmt : string) (mk : A -> arg) (array : list A),
             no_percent tag = true -> (count <= List.length array)%nat ->
             let m := chBSemWait ;;
                      chprintf (Some s) (tag ++ "%s" ++ ":") [AStr name] ;;
                      index_loop (Some s) fmt mk array count 0 count ;;
                      chprintf (Some s) CRLF [] ;;
                      chBSemSignal in
             result m = Returned tt
             /\ emitted s (trace m)
                = array_line tag name
                    (List.map (fun x => render fmt [mk x]) (firstn count array))).
  { intros A tag fmt mk array Htag Hlen m. subst m.
    destruct (index_loop_first s fmt mk array count count 0 eq_refl Hlen) as [Hr Ht].
    cbn [skipn] in Ht. unfold array_line.
    destruct (index_loop (Some s) fmt mk array count 0 count) as [t r] eqn:E.
    unfold result, trace in *. cbn [fst snd] in *. subst r.
    unfold chBSemWait, chBSemSignal, chprintf, chvprintf, emit, bind.
    cbn [fst snd app emitted]. rewrite Nat.eqb_refl, emitted_app, Ht.
    cbn [emitted]. rewrite Nat.eqb_refl, string_app_empty.
    rewrite (render_around tag ":" name Htag eq_refl), !string_app_assoc. auto. }
  split; [|split].
  - unfold int_array_functions.
    repeat (apply Forall_cons;
            [intros data Hlen;
             match goal with
             | |- context [array_line ?tag _ (List.map (fun x => render ?fmt [AInt (?elem x)]) _)] =>
                 exact (int_array_line tag fmt elem s name data count eq_refl Hlen)
             end|]).
    apply Forall_nil.
  - intros str_array Hlen.
    exact (Hindex _ "SA:" "%s" AStr str_array eq_refl Hlen).
  - intros data Hlen.
    exact (Hindex _ "F:" "%f" ADouble data eq_refl Hlen).
Qed.

(** The digits of the hexadecimal conversions. *)
Lemma digit_char_hex (d : Z) :
  0 <= d < 16 -> hex_digit_value (digit_char d) = d /\ is_upper_hex (digit_char d) = true.
Proof.
  intros H.
  assert (Hd : d = 0 \/ d = 1 \/ d = 2 \/ d = 3 \/ d = 4 \/ d = 5 \/ d = 6 \/ d = 7
               \/ d = 8 \/ d = 9 \/ d = 10 \/ d = 11 \/ d = 12 \/ d = 13 \/ d = 14
               \/ d = 15) by lia.
  repeat (destruct Hd as [-> | Hd]; [split; reflexivity|]). subst d. split; reflexivity.
Qed.

Lemma hex_from_app (s : string) (c : ascii) :
  forall acc, hex_from acc (s ++ String c "") = hex_from acc s * 16 + hex_digit_value c.
Proof. induction s as [|d s IH]; intros acc; cbn; [reflexivity | apply IH]. Qed.

Lemma string_length_app (a b : string) :
  String.length (a ++ b) = (String.length a + String.length b)%nat.
Proof. induction a as [|c a IH]; cbn; [reflexivity | rewrite IH; reflexivity]. Qed.

Lemma ltoa_loop_hex_value (fuel : nat) :
  forall l, 0 <= l < 16 ^ Z.of_nat fuel -> hex_value (ltoa_loop fuel l 16 "") = l.
Proof.
  unfold hex_value.
  induction fuel as [|fuel IH]; intros l Hl.
  - cbn in Hl. assert (l = 0) by lia. subst l. reflexivity.
  - cbn [ltoa_loop].
    assert (Hmod : 0 <= l mod 16 < 16) by (apply Z.mod_pos_bound; lia).
    pose proof (Z.div_mod l 16 ltac:(lia)) as Hdm.
    destruct (digit_char_hex _ Hmod) as [Hv _].
    destruct (Z.eqb_spec (l / 16) 0) as [Hz | Hnz].
    + cbn [hex_from]. rewrite Hv. lia.
    + rewrite ltoa_loop_acc, hex_from_app, Hv.
      rewrite IH; [lia|].
      rewrite Nat2Z.inj_succ, Z.pow_succ_r in Hl by lia.
      split; [apply Z.div_pos; lia | apply Z.div_lt_upper_bound; lia].
Qed.

Lemma ltoa_loop_hex_chars (fuel : nat) :
  forall l acc, all_upper_hex acc = true -> all_upper_hex (ltoa_loop fuel l 16 acc) = true.
Proof.
  induction fuel as [|fuel IH]; intros l acc Hacc; [exact Hacc|].
  cbn [ltoa_loop].
  assert (Hd : all_upper_hex (String (digit_char (l mod 16)) acc) = true).
  { cbn [all_upper_hex]. rewrite Hacc.
    destruct (digit_char_hex (l mod 16)) as [_ ->]; [|reflexivity].
    apply Z.mod_pos_bound. lia. }
  destruct (l / 16 =? 0); [exact Hd | apply IH, Hd].
Qed.

Lemma ltoa_loop_hex_length (fuel : nat) :
  forall (k : nat) l, 0 <= l < 16 ^ Z.of_nat k ->
  (String.length (ltoa_loop fuel l 16 "") <= Nat.max k 1)%nat.
Proof.
  induction fuel as [|fuel IH]; intros k l Hl; [cbn; lia|].
  cbn [ltoa_loop].
  destruct (Z.eqb_spec (l / 16) 0) as [Hz | Hnz]; [cbn; lia|].
  rewrite ltoa_loop_acc, string_length_app. cbn [String.length].
  destruct k as [|k].
  - cbn in Hl. assert (l = 0) by lia. subst l. cbn in Hnz. lia.
  - rewrite Nat2Z.inj_succ, Z.pow_succ_r in Hl by lia.
    assert (Hq : 0 <= l / 16 < 16 ^ Z.of_nat k)
      by (split; [apply Z.div_pos; lia | apply Z.div_lt_upper_bound; lia]).
    pose proof (IH k (l / 16) Hq) as Hlen.
    destruct k as [|k].
    + cbn in Hq. lia.
    + lia.
Qed.

Lemma ltoa_loop_nonempty (fuel : nat) (l radix : Z) :
  (1 <= String.length (ltoa_loop (S fuel) l radix ""))%nat.
Proof.
  cbn [ltoa_loop]. destruct (l / radix =? 0); [cbn; lia|].
  rewrite ltoa_loop_acc, string_length_app. cbn. lia.
Qed.

Lemma fill_length (n : nat) (c : ascii) : String.length (fill n c) = n.
Proof. induction n as [|n IH]; cbn; [reflexivity | rewrite IH; reflexivity]. Qed.

Lemma hex_from_zeros (n : nat) (body : string) :
  hex_from 0 (fill n "0"%char ++ body) = hex_from 0 body.
Proof. induction n as [|n IH]; [reflexivity | exact IH]. Qed.

Lemma all_upper_hex_zeros (n : nat) (body : string) :
  all_upper_hex (fill n "0"%char ++ body) = all_upper_hex body.
Proof. induction n as [|n IH]; [reflexivity | exact IH]. Qed.

Lemma pad_zeros (width : nat) (body : string) :
  all_upper_hex body = true ->
  pad false "0"%char width body = (fill (width - String.length body) "0"%char ++ body)%string.
Proof.
  intros Hb. unfold pad. destruct body as [|c r]; [reflexivity|].
  cbn [all_upper_hex] in Hb. apply andb_true_iff in Hb. destruct Hb as [Hc _].
  destruct c as [[|] [|] [|] [|] [|] [|] [|] [|]]; try reflexivity; discriminate Hc.
Qed.

(** A value below [16 ^ width] printed with [%0<width>X]. *)
Lemma hex_text (width : nat) (v : Z) :
  (1 <= width)%nat -> 0 <= v < 16 ^ Z.of_nat width -> v < 4294967296 ->
  let t := pad false "0"%char width (unsigned_text v 16) in
  String.length t = width /\ all_upper_hex t = true /\ hex_value t = v.
Proof.
  intros Hw Hv H32 t. subst t. unfold unsigned_text, wrapu.
  change (2 ^ 32) with 4294967296. rewrite Z.mod_small by lia.
  assert (Hchars : all_upper_hex (ltoa v 16) = true)
    by (apply ltoa_loop_hex_chars; reflexivity).
  assert (Hlen : (String.length (ltoa v 16) <= Nat.max width 1)%nat)
    by (apply ltoa_loop_hex_length; exact Hv).
  assert (Hval : hex_value (ltoa v 16) = v).
  { apply ltoa_loop_hex_value. change (16 ^ Z.of_nat 32) with 340282366920938463463374607431768211456. lia. }
  rewrite pad_zeros by exact Hchars.
  split; [|split].
  - rewrite string_length_app, fill_length. lia.
  - rewrite all_upper_hex_zeros. exact Hchars.
  - unfold hex_value in *. rewrite hex_from_zeros. exact Hval.
Qed.

Lemma hex_items (fmt : string) (width : nat) (bits : Z) (values : list Z) :
  (forall v, render fmt [AInt v]
             = (pad false "0"%char width (unsigned_text v 16) ++ "")%string) ->
  (1 <= width)%nat -> 2 ^ bits = 16 ^ Z.of_nat width -> 2 ^ bits <= 4294967296 ->
  Forall (fun t => String.length t = width /\ all_upper_hex t = true)
         (List.map (fun x => render fmt [AInt (wrapu bits x)]) values)
  /\ List.map hex_value (List.map (fun x => render fmt [AInt (wrapu bits x)]) values)
     = List.map (wrapu bits) values.
Proof.
  intros Hfmt Hw Hpow H32.
  assert (Hone : forall x,
             let t := render fmt [AInt (wrapu bits x)] in
             String.length t = width /\ all_upper_hex t = true
             /\ hex_value t = wrapu bits x).
  { intros x. cbn zeta. rewrite Hfmt, string_app_empty.
    assert (Hr : 0 <= wrapu bits x < 2 ^ bits)
      by (unfold wrapu; apply Z.mod_pos_bound; lia).
    apply hex_text; lia. }
  split.
  - apply Forall_forall. intros t Ht. apply in_map_iff in Ht.
    destruct Ht as [x [<- _]]. destruct (Hone x) as [H1 [H2 _]]. auto.
  - rewrite map_map. apply map_ext. intros x. apply (Hone x).
Qed.

(** X11: the hexadecimal array functions write items of a fixed width:
    [util_message_hex_uint8] prints every element as exactly two characters,
    [util_message_hex_uint16] as four and [util_message_hex_uint32] as eight,
    all of them digits or upper-case letters A to F, padded with zeros on the
    left; read back as hexadecimal numerals the items give the first [count]
    elements at their width. *)
Theorem hex_lines_have_fixed_width (s : stream) (name : option string)
    (data : list Z) (count : nat) :
  (count <= List.length data)%nat ->
  hex_line "H8:" 2 8 name (firstn count data)
    (emitted s (trace (util_message_hex_uint8 (Some s) name data count)))
  /\ hex_line "H16:" 4 16 name (firstn count data)
       (emitted s (trace (util_message_hex_uint16 (Some s) name data count)))
  /\ hex_line "H32:" 8 32 name (firstn count data)
       (emitted s (trace (util_message_hex_uint32 (Some s) name data count))).
Proof.
  intros Hlen.
  split; [|split]; eexists; (split; [| apply hex_items]).
  - exact (proj2 (int_array_line "H8:" "%02X" (wrapu 8) s name data count eq_refl Hlen)).
  - intros v. reflexivity.
  - lia.
  - reflexivity.
  - cbn. lia.
  - exact (proj2 (int_array_line "H16:" "%04X" (wrapu 16) s name data count eq_refl Hlen)).
  - intros v. reflexivity.
  - lia.
  - reflexivity.
  - cbn. lia.
  - exact (proj2 (int_array_line "H32:" "%08X" (wrapu 32) s name data count eq_refl Hlen)).
  - intros v. reflexivity.
  - lia.
  - reflexivity.
  - cbn. lia.
Qed.

(** The signed decimal conversion. *)
Lemma wraps_range (bits x : Z) :
  1 <= bits -> - 2 ^ (bits - 1) <= wraps bits x < 2 ^ (bits - 1).
Proof.
  intros Hb. unfold wraps.
  assert (Hp : 2 ^ bits = 2 * 2 ^ (bits - 1)).
  { replace bits with (Z.succ (bits - 1)) at 1 by lia. apply Z.pow_succ_r. lia. }
  assert (Hm : 0 <= x mod 2 ^ bits < 2 ^ bits) by (apply Z.mod_pos_bound; lia).
  destruct (Z.ltb_spec (x mod 2 ^ bits) (2 ^ (bits - 1))); lia.
Qed.

Lemma wraps_small (v : Z) : - 2147483648 <= v < 2147483648 -> wraps 32 v = v.
Proof.
  intros Hv. unfold wraps.
  change (2 ^ 32) with 4294967296. change (2 ^ (32 - 1)) with 2147483648.
  destruct (Z_lt_dec v 0) as [Hneg | Hpos].
  - replace (v mod 4294967296) with (v + 4294967296)
      by (apply Z.mod_unique with (q := -1); lia).
    replace (v + 4294967296 <? 2147483648) with false
      by (symmetry; apply Z.ltb_ge; lia).
    lia.
  - rewrite Z.mod_small by lia.
    replace (v <? 2147483648) with true by (symmetry; apply Z.ltb_lt; lia).
    reflexivity.
Qed.

Lemma digits_not_signed (t : string) :
  all_digits t = true ->
  signed_value t = decimal_value t
  /\ is_signed_numeral t = all_digits t && (0 <? String.length t)%nat.
Proof.
  intros Ht. destruct t as [|c r]; [split; reflexivity|].
  cbn [all_digits] in Ht. apply andb_true_iff in Ht. destruct Ht as [Hc _].
  destruct c as [[|] [|] [|] [|] [|] [|] [|] [|]];
    try (split; reflexivity); discriminate Hc.
Qed.

Lemma signed_text_value (v : Z) :
  - 2147483648 <= v < 2147483648 ->
  signed_value (signed_text v) = v /\ is_signed_numeral (signed_text v) = true.
Proof.
  intros Hv. unfold signed_text. rewrite wraps_small by exact Hv. cbn zeta.
  destruct (Z.ltb_spec v 0) as [Hneg | Hpos].
  - unfold wrapu. change (2 ^ 32) with 4294967296. rewrite Z.mod_small by lia.
    destruct (ltoa_decimal (- v)) as [Hd [Hval _]]; [lia|].
    cbn [signed_value is_signed_numeral]. rewrite Hval, Hd.
    pose proof (ltoa_loop_nonempty 31 (- v) 10) as Hne.
    change (ltoa_loop 32 (- v) 10 "") with (ltoa (- v) 10) in Hne.
    split; [lia|]. apply andb_true_iff. split; [reflexivity|].
    apply Nat.ltb_lt. lia.
  - destruct (ltoa_decimal v) as [Hd [Hval _]]; [lia|].
    destruct (digits_not_signed _ Hd) as [-> ->]. rewrite Hval, Hd.
    pose proof (ltoa_loop_nonempty 31 v 10) as Hne.
    change (ltoa_loop 32 v 10 "") with (ltoa v 10) in Hne.
    split; [reflexivity|]. apply Nat.ltb_lt. lia.
Qed.

Lemma signed_items (bits : Z) (values : list Z) :
  1 <= bits <= 32 ->
  Forall (fun t => is_signed_numeral t = true)
         (List.map (fun x => render "%d" [AInt (wraps bits x)]) values)
  /\ List.map signed_value (List.map (fun x => render "%d" [AInt (wraps bits x)]) values)
     = List.map (wraps bits) values.
Proof.
  intros Hb.
  assert (Hone : forall x,
             signed_value (render "%d" [AInt (wraps bits x)]) = wraps bits x
             /\ is_signed_numeral (render "%d" [AInt (wraps bits x)]) = true).
  { intros x. rewrite render_signed. apply signed_text_value.
    pose proof (wraps_range bits x ltac:(lia)) as Hr.
    assert (Hp : 2 ^ (bits - 1) <= 2 ^ 31) by (apply Z.pow_le_mono_r; lia).
    change (2 ^ 31) with 2147483648 in Hp. lia. }
  split.
  - apply Forall_forall. intros t Ht. apply in_map_iff in Ht.
    destruct Ht as [x [<- _]]. apply (Hone x).
  - rewrite map_map. apply map_ext. intros x. apply (Hone x).
Qed.

(** X12: the signed array functions [util_message_int8],
    [util_message_int16] and [util_message_int32] write every element as a
    decimal numeral with a minus sign in front of a negative one, and the
    items read back as the first [count] elements at their signed width. *)
Theorem signed_lines_read_back (s : stream) (name : option string)
    (data : list Z) (count : nat) :
  (count <= List.length data)%nat ->
  signed_line "S8:" 8 name (firstn count data)
    (emitted s (trace (util_message_int8 (Some s) name data count)))
  /\ signed_line "S16:" 16 name (firstn count data)
       (emitted s (trace (util_message_int16 (Some s) name data count)))
  /\ signed_line "S32:" 32 name (firstn count data)
       (emitted s (trace (util_message_int32 (Some s) name data count))).
Proof.
  intros Hlen.
  split; [|split]; eexists; (split; [| apply signed_items; lia]).
  - exact (proj2 (int_array_line "S8:" "%d" (wraps 8) s name data count eq_refl Hlen)).
  - exact (proj2 (int_array_line "S16:" "%d" (wraps 16) s name data count eq_refl Hlen)).
  - exact (proj2 (int_array_line "S32:" "%d" (wraps 32) s name data count eq_refl Hlen)).
Qed.

End TypedLines.

Lemma hex_lines_have_fixed_width_witness :
  hex_line "H8:" 2 8 (Some "id") (firstn 2 [10; 255; 7])
    (emitted 1%nat
       (trace (UtilMessages.util_message_hex_uint8 (Some 1%nat) (Some "id") [10; 255; 7] 2))).
Proof.
  apply (hex_lines_have_fixed_width 1%nat (Some "id") [10; 255; 7] 2). cbn. lia.
Defined.

Lemma signed_lines_read_back_witness :
  signed_line "S8:" 8 (Some "t") (firstn 2 [-3; 200; 7])
    (emitted 1%nat
       (trace (UtilMessages.util_message_int8 (Some 1%nat) (Some "t") [-3; 200; 7] 2))).
Proof.
  apply (signed_lines_read_back 1%nat (Some "t") [-3; 200; 7] 2). cbn. lia.
Defined.
